(** * Mandelbrot drawing engine: algorithmic model in fixed point Q3.29

    A shallow embedding of [mandelbrot_model.cpp] and the properties of its
    colour-map builder, spread index, coordinate mapper, fixed-point multiply
    and escape-time renderer.

    Conventions.  Every C++ integer is a [Z] that lies in the range of its
    type; an operation whose C++ result has a fixed width is followed by the
    reduction to that width ([to_int32], [to_int64], [to_uint16],
    [to_uint64]).  For the signed types this is the two's complement result
    that the hardware target produces.  [std::vector] is a [list],
    [push_back] appends at the end, and [at] is the bounds-checked read,
    whose [std::out_of_range] exception is the error [out_of_range]. *)

From Stdlib Require Import ZArith List Lia Bool.
From Stdlib Require String Ascii DecimalString HexadecimalString DecimalZ.
Import String.StringSyntax.
Local Delimit Scope string_scope with string.
From Stdlib Require Floats Uint63.
Import ListNotations.
Local Open Scope Z_scope.

(** ** Fixed-width integers *)

Definition wrap_unsigned (w z : Z) : Z := z mod 2 ^ w.
Definition wrap_signed (w z : Z) : Z := (z + 2 ^ (w - 1)) mod 2 ^ w - 2 ^ (w - 1).

Definition to_uint16 : Z -> Z := wrap_unsigned 16.
Definition to_uint64 : Z -> Z := wrap_unsigned 64.
Definition to_int32 : Z -> Z := wrap_signed 32.
Definition to_int64 : Z -> Z := wrap_signed 64.

Definition INT_MIN : Z := -2147483648.
Definition INT_MAX : Z := 2147483647.

Definition is_uint16 (z : Z) : Prop := 0 <= z < 65536.
Definition is_int32 (z : Z) : Prop := INT_MIN <= z <= INT_MAX.
Definition is_int64 (z : Z) : Prop :=
  -9223372036854775808 <= z < 9223372036854775808.

(** ** Failure: the exception of [vector::at], and loops cut off by fuel *)

Inductive error : Type :=
| out_of_range
| out_of_fuel.

Inductive result (A : Type) : Type :=
| Ok (a : A)
| Err (e : error).

Arguments Ok {A} a.
Arguments Err {A} e.

Definition bind {A B : Type} (r : result A) (k : A -> result B) : result B :=
  match r with
  | Ok a => k a
  | Err e => Err e
  end.

Notation "x <- r ;; k" := (bind r (fun x => k))
  (at level 61, r at next level, right associativity).

(** [v.at(i)] with an [int] index: a negative index converts to a huge
    [size_t] and is out of range like any index past the end. *)
Definition at_ {A : Type} (v : list A) (i : Z) : result A :=
  if (0 <=? i) && (i <? Z.of_nat (length v)) then
    match nth_error v (Z.to_nat i) with
    | Some a => Ok a
    | None => Err out_of_range
    end
  else Err out_of_range.

(** ** Constants and colour macros *)

Definition XSIZE : Z := 640.
Definition YSIZE : Z := 480.
Definition BASE_INCREMENT_AMOUNT : Z := 0xfa0.
Definition FRAC_BITS : Z := 29.

Definition colour : Type := Z.

Definition RED (c : colour) : Z := Z.land (Z.shiftr c 11) 0x1F.
Definition GREEN (c : colour) : Z := Z.land (Z.shiftr c 5) 0x3F.
Definition BLUE (c : colour) : Z := Z.land c 0x1F.

Record coord_step : Type := mk_coord_step {
  cs_x : Z;
  cs_y : Z;
  cs_step : Z
}.

(** ** Spread index *)

(** The factor [iterations] is multiplied by, in [int] arithmetic. *)
Definition spread_factor (max_iterations : Z) : Z :=
  to_int32 (to_int32 (to_int32 (Z.shiftr max_iterations 4 - Z.shiftr max_iterations 5)
                      - Z.shiftr max_iterations 6)
            - Z.shiftr max_iterations 10).

Definition get_spread_colour_index (iterations max_iterations : Z) : Z :=
  if max_iterations <? 16 then iterations
  else
    let spread_value := to_int32 (iterations * spread_factor max_iterations) in
    if spread_value <? max_iterations then spread_value
    else to_int32 (max_iterations - 1).

(** ** Colour map builder *)

(** [(r << 11) | (g << 5) | b] stored into a [colour]. *)
Definition rgb565 (r g b : Z) : colour :=
  to_uint16 (Z.lor (Z.lor (Z.shiftl r 11) (Z.shiftl g 5)) b).

(** The body of the [while] loop of one segment, run until the combined
    colour equals [colour_end]; every pass consumes one unit of [fuel]. *)
Fixpoint interpolate (fuel : nat) (colour_end : colour) (r_inc g_inc b_inc : Z)
    (colour_start : colour) (r g b : Z) (unique_colours : list colour)
  : result (list colour) :=
  if colour_start =? colour_end then Ok unique_colours
  else
    match fuel with
    | O => Err out_of_fuel
    | S fuel' =>
        let r := if negb (r =? RED colour_end) then to_uint16 (r + r_inc) else r in
        let g := if negb (g =? GREEN colour_end) then to_uint16 (g + g_inc) else g in
        let b := if negb (b =? BLUE colour_end) then to_uint16 (b + b_inc) else b in
        let colour_start := rgb565 r g b in
        interpolate fuel' colour_end r_inc g_inc b_inc colour_start r g b
          (unique_colours ++ [colour_start])
    end.

(** One pass of the [for] loop: the segment from [colour_start] to
    [colour_end]. *)
Definition interpolate_segment (fuel : nat) (colour_start colour_end : colour)
    (unique_colours : list colour) : result (list colour) :=
  let r := RED colour_start in
  let g := GREEN colour_start in
  let b := BLUE colour_start in
  let b_inc := if BLUE colour_end - BLUE colour_start >? 0 then 1 else -1 in
  let g_inc := if GREEN colour_end - GREEN colour_start >? 0 then 1 else -1 in
  let r_inc := if RED colour_end - RED colour_start >? 0 then 1 else -1 in
  interpolate fuel colour_end r_inc g_inc b_inc colour_start r g b
    (unique_colours ++ [colour_start]).

(** [for (int i = ...; i < 5; i++)], with [n] passes left. *)
Fixpoint segments_from (n : nat) (i : Z) (fuel : nat) (interp_points : list colour)
    (unique_colours : list colour) : result (list colour) :=
  match n with
  | O => Ok unique_colours
  | S n' =>
      colour_start <- at_ interp_points i ;;
      colour_end <- at_ interp_points (i + 1) ;;
      unique_colours' <- interpolate_segment fuel colour_start colour_end unique_colours ;;
      segments_from n' (i + 1) fuel interp_points unique_colours'
  end.

Definition generate_unique_colours (fuel : nat) (unique_colours interp_points : list colour)
  : result (list colour) :=
  segments_from 5 0 fuel interp_points unique_colours.

(** *** Double precision arithmetic of the upsampling stride

    [std::ceil(double(max_iterations) / double(unique_colours.size()))] is
    computed on IEEE 754 binary64 values: the kernel's primitive floats. *)

(** Integer to [double]; exact below [2^53]. *)
Definition double_of_Z (z : Z) : PrimFloat.float :=
  if z <? 0 then PrimFloat.opp (PrimFloat.of_uint63 (Uint63.of_Z (- z)))
  else PrimFloat.of_uint63 (Uint63.of_Z z).

Definition two52 : PrimFloat.float := Eval cbv in double_of_Z (2 ^ 52).

(** [std::ceil]: the least integral [double] not below [x].  Below [2^52] in
    magnitude, adding and removing [2^52] rounds [x] to a neighbouring
    integer [r]; the ceiling is [r], or [r + 1] when [r] fell below [x].
    From [2^52] on every [double] is integral. *)
Definition ceil (x : PrimFloat.float) : PrimFloat.float :=
  if PrimFloat.ltb (PrimFloat.abs x) two52 then
    let r :=
      if PrimFloat.ltb x PrimFloat.zero
      then PrimFloat.add (PrimFloat.sub x two52) two52
      else PrimFloat.sub (PrimFloat.add x two52) two52 in
    if PrimFloat.ltb r x then PrimFloat.add r PrimFloat.one else r
  else x.

(** [double] to [int]: truncation toward zero (not a number and the
    infinities, where C++ leaves the conversion undefined, give 0). *)
Definition int_of_double (x : PrimFloat.float) : Z :=
  match FloatOps.Prim2SF x with
  | SpecFloat.S754_finite s m e =>
      let magnitude := if 0 <=? e then Z.pos m * 2 ^ e else Z.pos m / 2 ^ (- e) in
      to_int32 (if s then - magnitude else magnitude)
  | _ => 0
  end.

(** *** Resampling *)

(** The downsampling [for] loop, with [n] passes left. *)
Fixpoint downsample_loop (n : nat) (step_size colour_index : Z)
    (unique_colours colour_map : list colour) : result (list colour) :=
  match n with
  | O => Ok colour_map
  | S n' =>
      c <- at_ unique_colours colour_index ;;
      downsample_loop n' step_size (to_int32 (colour_index + step_size))
        unique_colours (colour_map ++ [c])
  end.

(** The upsampling [for] loop, with [n] passes left; [i] is the loop
    counter. *)
Fixpoint upsample_loop (n : nat) (i step_size colour_index : Z)
    (unique_colours colour_map : list colour) : result (list colour) :=
  match n with
  | O => Ok colour_map
  | S n' =>
      c <- at_ unique_colours colour_index ;;
      let colour_index :=
        if Z.rem (i + 1) step_size =? 0 then to_int32 (colour_index + 1)
        else colour_index in
      upsample_loop n' (i + 1) step_size colour_index unique_colours (colour_map ++ [c])
  end.

Definition size {A : Type} (v : list A) : Z := Z.of_nat (length v).

(** The stride of the upsampling branch. *)
Definition upsample_step_size (max_iterations unique_count : Z) : Z :=
  int_of_double
    (ceil (PrimFloat.div (double_of_Z max_iterations) (double_of_Z unique_count))).

(** The stride of the downsampling branch: a [size_t] division, [max_iterations]
    being converted to [size_t], narrowed to [int]. *)
Definition downsample_step_size (max_iterations unique_count : Z) : Z :=
  to_int32 (unique_count / to_uint64 max_iterations).

Definition generate_colour_map (max_iterations : Z) (unique_colours colour_map : list colour)
  : result (list colour) :=
  let colour_index := 0 in
  if size unique_colours >? to_uint64 max_iterations then
    let step_size := downsample_step_size max_iterations (size unique_colours) in
    downsample_loop (Z.to_nat max_iterations) step_size colour_index
      unique_colours colour_map
  else
    let step_size := upsample_step_size max_iterations (size unique_colours) in
    upsample_loop (Z.to_nat max_iterations) 0 step_size colour_index
      unique_colours colour_map.

(** ** Fixed-point kernel *)

Definition fixed_mult (a b : Z) : Z := Z.shiftr (to_int64 (a * b)) FRAC_BITS.

(** ** Escape-time iteration *)

Record iter_state : Type := mk_iter_state {
  iterations : Z;
  zr : Z;
  zi : Z;
  modulus_sq : Z
}.

Definition iter_init : iter_state :=
  {| iterations := 0; zr := 0; zi := 0; modulus_sq := 0 |}.

(** The guard of the [while] loop. *)
Definition iter_continues (max_iterations : Z) (st : iter_state) : bool :=
  (modulus_sq st <=? to_uint64 (Z.shiftl 4 FRAC_BITS))
  && (iterations st <? max_iterations).

(** The body of the [while] loop. *)
Definition iter_body (x_fixed y_fixed : Z) (st : iter_state) : iter_state :=
  let modulus_sq' :=
    to_uint64 (to_int64 (fixed_mult (zr st) (zr st) + fixed_mult (zi st) (zi st))) in
  let temp :=
    to_int64 (to_int64 (fixed_mult (zr st) (zr st) - fixed_mult (zi st) (zi st))
              + x_fixed) in
  let zi' := to_int64 (to_int64 (Z.shiftl (fixed_mult (zr st) (zi st)) 1) + y_fixed) in
  {| iterations := to_int32 (iterations st + 1);
     zr := temp;
     zi := zi';
     modulus_sq := modulus_sq' |}.

(** The [while] loop run for at most [n] passes.  The guard bounds the
    passes by [max_iterations], so [n = max_iterations] passes exhaust it
    (lemma [iter_loop_exits]). *)
Fixpoint iter_loop (n : nat) (x_fixed y_fixed max_iterations : Z) (st : iter_state)
  : iter_state :=
  match n with
  | O => st
  | S n' =>
      if iter_continues max_iterations st
      then iter_loop n' x_fixed y_fixed max_iterations (iter_body x_fixed y_fixed st)
      else st
  end.

Definition escape_time (x_fixed y_fixed max_iterations : Z) : iter_state :=
  iter_loop (Z.to_nat max_iterations) x_fixed y_fixed max_iterations iter_init.

(** The colour of one pixel: the rest of the inner loop body. *)
Definition pixel_colour (x_fixed y_fixed max_iterations : Z) (colour_map : list colour)
  : result colour :=
  let st := escape_time x_fixed y_fixed max_iterations in
  if iterations st <? max_iterations then
    at_ colour_map (get_spread_colour_index (iterations st) max_iterations)
  else Ok 0.

(** ** Frame renderer *)

(** [colour framebuffer[YSIZE][XSIZE]]: row, then column. *)
Definition framebuffer : Type := Z -> Z -> colour.

Definition fb_set (fb : framebuffer) (y x : Z) (c : colour) : framebuffer :=
  fun y' x' => if (y' =? y) && (x' =? x) then c else fb y' x'.

(** The inner [for] loop over the columns of row [y], with [n] columns left. *)
Fixpoint draw_columns (n : nat) (y x : Z) (x_fixed y_fixed inc_fixed max_iterations : Z)
    (colour_map : list colour) (fb : framebuffer) : result framebuffer :=
  match n with
  | O => Ok fb
  | S n' =>
      c <- pixel_colour x_fixed y_fixed max_iterations colour_map ;;
      draw_columns n' y (x + 1) (to_int32 (x_fixed + inc_fixed)) y_fixed inc_fixed
        max_iterations colour_map (fb_set fb y x c)
  end.

(** The outer [for] loop over the rows, with [n] rows left. *)
Fixpoint draw_rows (n : nat) (y : Z) (x_start y_fixed inc_fixed max_iterations : Z)
    (colour_map : list colour) (fb : framebuffer) : result framebuffer :=
  match n with
  | O => Ok fb
  | S n' =>
      fb' <- draw_columns (Z.to_nat XSIZE) y 0 x_start y_fixed inc_fixed
               max_iterations colour_map fb ;;
      draw_rows n' (y + 1) x_start (to_int32 (y_fixed - inc_fixed)) inc_fixed
        max_iterations colour_map fb'
  end.

Definition drawMandelbrot (x_fixed y_fixed inc_fixed max_iterations : Z)
    (fb : framebuffer) (colour_map : list colour) : result framebuffer :=
  let x_start := x_fixed in
  draw_rows (Z.to_nat YSIZE) 0 x_start y_fixed inc_fixed max_iterations colour_map fb.

(** ** Coordinate mapper *)

Definition zoom_level (zoom : Z) : Z :=
  if zoom >? 10 then 0
  else if zoom <? 0 then 0
  else zoom.

Definition center_coords (center_x center_y zoom : Z) : coord_step :=
  let zoom := zoom_level zoom in
  let step_size := to_int32 (BASE_INCREMENT_AMOUNT * to_int32 (Z.shiftl 1 (10 - zoom))) in
  {| cs_x := to_int32 (center_x - to_int32 (Z.shiftr XSIZE 1 * step_size));
     cs_y := to_int32 (center_y + to_int32 (Z.shiftr YSIZE 1 * step_size));
     cs_step := step_size |}.

(** ** One test case of [main] *)

(** The two guards on [max_iterations] after a record is read. *)
Definition main_max_iterations (max_iterations : Z) : Z :=
  let max_iterations := if max_iterations <=? 0 then 1 else max_iterations in
  if max_iterations >? 1023 then 1 else max_iterations.

Definition grey : colour := 0x7BEF.

(** The body of the [while (std::getline ...)] loop between reading the
    record and writing the output files.  [center_x] and [center_y] are
    read as 64-bit values and narrowed to [fixed_32] by the call. *)
Definition main_body (fuel : nat) (center_x center_y zoom max_iterations : Z)
    (c1 c2 c3 c4 c5 c6 : colour) : result framebuffer :=
  let max_iterations := main_max_iterations max_iterations in
  let interp_points := [c1; c2; c3; c4; c5; c6] in
  unique_colours <- generate_unique_colours fuel [] interp_points ;;
  colour_map <- generate_colour_map max_iterations unique_colours [] ;;
  let fb : framebuffer := fun _ _ => grey in
  let c := center_coords (to_int32 center_x) (to_int32 center_y) zoom in
  drawMandelbrot (cs_x c) (cs_y c) (cs_step c) max_iterations fb colour_map.

(** ** Image file writer *)

Definition to_uint8 : Z -> Z := wrap_unsigned 8.

(** The three [uint8_t] values written for one pixel: red and blue shifted
    left by 3, green by 2. *)
Definition ppm_pixel (c : colour) : list Z :=
  [to_uint8 (Z.shiftl (RED c) 3);
   to_uint8 (Z.shiftl (GREEN c) 2);
   to_uint8 (Z.shiftl (BLUE c) 3)].

(** [ofs << n] for an [int] in decimal. *)
Definition print_int (z : Z) : String.string :=
  DecimalString.NilZero.string_of_int (Z.to_int z).

Definition newline : String.string :=
  String.String (Ascii.ascii_of_nat 10) String.EmptyString.

Definition bytes_of_string (s : String.string) : list Z :=
  map (fun b => Z.of_N (Byte.to_N b)) (String.list_byte_of_string s).

(** ["P6\n" << XSIZE << " " << YSIZE << "\n255\n"] *)
Definition ppm_header : String.string :=
  String.concat String.EmptyString
    ["P6"%string; newline; print_int XSIZE; " "%string; print_int YSIZE; newline;
     "255"%string; newline].

(** The inner loop of [write_ppm_file] over the columns of row [y], with [n]
    columns left; [ofs] is what the stream holds so far. *)
Fixpoint ppm_columns (n : nat) (y x : Z) (fb : framebuffer) (ofs : list Z) : list Z :=
  match n with
  | O => ofs
  | S n' => ppm_columns n' y (x + 1) fb (ofs ++ ppm_pixel (fb y x))
  end.

Fixpoint ppm_rows (n : nat) (y : Z) (fb : framebuffer) (ofs : list Z) : list Z :=
  match n with
  | O => ofs
  | S n' => ppm_rows n' (y + 1) fb (ppm_columns (Z.to_nat XSIZE) y 0 fb ofs)
  end.

(** The bytes [write_ppm_file] sends to the stream it opened. *)
Definition write_ppm_file (fb : framebuffer) : list Z :=
  ppm_rows (Z.to_nat YSIZE) 0 fb (bytes_of_string ppm_header).

(** ** Text dump writer *)

(** [ofs << std::hex << n] for an unsigned value: lower-case digits, no
    prefix. *)
Definition print_hex (z : Z) : String.string :=
  HexadecimalString.NilZero.string_of_uint (N.to_hex_uint (Z.to_N z)).

Fixpoint fill_chars (n : nat) (fill : Ascii.ascii) : String.string :=
  match n with
  | O => String.EmptyString
  | S n' => String.String fill (fill_chars n' fill)
  end.

(** [std::setw(width) << std::setfill(fill)] applied to the next output:
    padding on the left up to [width], nothing cut off. *)
Definition pad_left (width : nat) (fill : Ascii.ascii) (s : String.string)
  : String.string :=
  String.append (fill_chars (width - String.length s) fill) s.

(** One line of the dump: [x << " " << y << " 0x" << hex, width 4, fill '0'
    << colour << dec << "\n"]. *)
Definition framebuffer_line (x y : Z) (c : colour) : String.string :=
  String.append (print_int x)
    (String.append " "
       (String.append (print_int y)
          (String.append " 0x"
             (String.append (pad_left 4 (Ascii.ascii_of_nat 48) (print_hex c))
                newline)))).

Fixpoint text_columns (n : nat) (y x : Z) (fb : framebuffer) (ofs : String.string)
  : String.string :=
  match n with
  | O => ofs
  | S n' => text_columns n' y (x + 1) fb (String.append ofs (framebuffer_line x y (fb y x)))
  end.

Fixpoint text_rows (n : nat) (y : Z) (fb : framebuffer) (ofs : String.string)
  : String.string :=
  match n with
  | O => ofs
  | S n' => text_rows n' (y + 1) fb (text_columns (Z.to_nat XSIZE) y 0 fb ofs)
  end.

(** The text [write_framebuffer_file] sends to its stream; nothing when the
    file could not be opened. *)
Definition write_framebuffer_file (is_open : bool) (fb : framebuffer) : String.string :=
  if negb is_open then String.EmptyString
  else text_rows (Z.to_nat YSIZE) 0 fb String.EmptyString.

(** * Specification vocabulary *)

(** ** Exhaustive checks over an initial segment of the integers *)

Fixpoint all_from (n : nat) (z : Z) (p : Z -> bool) : bool :=
  match n with
  | O => true
  | S n' => p z && all_from n' (z + 1) p
  end.

Definition all_below (n : Z) (p : Z -> bool) : bool := all_from (Z.to_nat n) 0 p.

(** ** The path of one interpolation segment *)

(** Channel value after [k] passes when moving from [s] to [e] one unit per
    pass and resting at [e]. *)
Definition toward (s e k : Z) : Z :=
  if s <=? e then Z.min (s + k) e else Z.max (s - k) e.

(** The largest per-channel distance between two colours. *)
Definition channel_distance (cs ce : colour) : Z :=
  Z.max (Z.abs (RED ce - RED cs))
        (Z.max (Z.abs (GREEN ce - GREEN cs)) (Z.abs (BLUE ce - BLUE cs))).

Definition colour_after (cs ce : colour) (k : Z) : colour :=
  rgb565 (toward (RED cs) (RED ce) k)
         (toward (GREEN cs) (GREEN ce) k)
         (toward (BLUE cs) (BLUE ce) k).

(** The colours a segment appends: the start colour, then one colour per
    pass. *)
Definition segment_path (cs ce : colour) : list colour :=
  cs :: map (fun k => colour_after cs ce (Z.of_nat k))
            (seq 1 (Z.to_nat (channel_distance cs ce))).

(** The five segments of six anchors, in order. *)
Definition anchor_paths (interp_points : list colour) : list (list colour) :=
  map (fun i => segment_path (nth i interp_points 0) (nth (S i) interp_points 0))
      (seq 0 5).

(** A channel sequence runs from [a] to [b] without reversal or overshoot. *)
Definition monotone_between (a b : Z) (l : list Z) : Prop :=
  forall i j : nat, (i <= j < length l)%nat ->
    (a <= b -> a <= nth i l 0 <= nth j l 0 /\ nth j l 0 <= b) /\
    (b <= a -> b <= nth j l 0 <= nth i l 0 /\ nth i l 0 <= a).

Record segment_ok (cs ce : colour) (s : list colour) : Prop := {
  seg_first : hd_error s = Some cs;
  seg_last : last s cs = ce;
  seg_stops : forall i : nat, (S i < length s)%nat -> nth i s 0 <> ce;
  seg_red : monotone_between (RED cs) (RED ce) (map RED s);
  seg_green : monotone_between (GREEN cs) (GREEN ce) (map GREEN s);
  seg_blue : monotone_between (BLUE cs) (BLUE ce) (map BLUE s)
}.

(** ** The reads of the resampling loops *)

(** The values [colour_index] takes at the reads of the downsampling loop. *)
Fixpoint downsample_reads (n : nat) (step_size colour_index : Z) : list Z :=
  match n with
  | O => []
  | S n' => colour_index :: downsample_reads n' step_size (to_int32 (colour_index + step_size))
  end.

(** The values [colour_index] takes at the reads of the upsampling loop. *)
Fixpoint upsample_reads (n : nat) (i step_size colour_index : Z) : list Z :=
  match n with
  | O => []
  | S n' =>
      colour_index ::
      upsample_reads n' (i + 1) step_size
        (if Z.rem (i + 1) step_size =? 0 then to_int32 (colour_index + 1)
         else colour_index)
  end.

Definition colour_map_reads (max_iterations unique_count : Z) : list Z :=
  if unique_count >? to_uint64 max_iterations then
    downsample_reads (Z.to_nat max_iterations)
      (downsample_step_size max_iterations unique_count) 0
  else
    upsample_reads (Z.to_nat max_iterations) 0
      (upsample_step_size max_iterations unique_count) 0.

(** Reading a vector at a list of indices in order, appending to [acc] and
    failing at the first index out of range. *)
Fixpoint read_all (v : list colour) (indices : list Z) (acc : list colour)
  : result (list colour) :=
  match indices with
  | [] => Ok acc
  | i :: rest => c <- at_ v i ;; read_all v rest (acc ++ [c])
  end.

(** The strides as the specification words them. *)
Definition floor_stride (unique_count max_iterations : Z) : Z :=
  unique_count / max_iterations.
Definition ceil_stride (max_iterations unique_count : Z) : Z :=
  (max_iterations + unique_count - 1) / unique_count.

(** ** Interior region of the end-to-end scenario *)

Definition interior_x : Z := 41000000.
Definition interior_y : Z := 31000000.
Definition interior_z : Z := 100000000.

(** The loop invariant at a sample point of that region: both parts of [z]
    stay within [interior_z] and the squared modulus below the escape
    threshold. *)
Definition interior_state (st : iter_state) : Prop :=
  - interior_z <= zr st <= interior_z
  /\ - interior_z <= zi st <= interior_z
  /\ 0 <= modulus_sq st <= 2147483648.

(** A frame buffer after rows [y0 .. y0+rows-1] were drawn black over [fb]. *)
Definition black_rows (fb fb' : framebuffer) (y0 rows : Z) : Prop :=
  forall y x,
    fb' y x = if (y0 <=? y) && (y <? y0 + rows) && (0 <=? x) && (x <? XSIZE)
              then 0 else fb y x.

Definition test_anchors : list colour :=
  [0x0000; 0x2104; 0x4208; 0x630C; 0x8410; 0xFFFF].

(** ** Sample points of the pixel grid *)

(** The sample point of column [x] and of row [y] after the running
    32-bit additions and subtractions of the step. *)
Definition sample_x (x_fixed inc_fixed x : Z) : Z := to_int32 (x_fixed + x * inc_fixed).
Definition sample_y (y_fixed inc_fixed y : Z) : Z := to_int32 (y_fixed - y * inc_fixed).

Definition in_grid (y x : Z) : Prop := 0 <= y < YSIZE /\ 0 <= x < XSIZE.

(** The unique-colour index behind entry [j] of the colour map. *)
Definition colour_map_index (max_iterations unique_count j : Z) : Z :=
  if max_iterations <? unique_count
  then j * floor_stride unique_count max_iterations
  else j / ceil_stride max_iterations unique_count.

(** Reading a PPM pixel back into RGB565. *)
Definition ppm_decode (r g b : Z) : colour :=
  rgb565 (Z.shiftr r 3) (Z.shiftr g 2) (Z.shiftr b 3).

(** Reading the fields of a dump line back. *)
Definition read_int (s : String.string) : option Z :=
  option_map Z.of_int (DecimalString.NilZero.int_of_string s).

Definition read_hex (s : String.string) : option Z :=
  option_map (fun d => Z.of_N (N.of_hex_uint d))
    (HexadecimalString.NilZero.uint_of_string s).

Definition join_strings (l : list String.string) : String.string :=
  fold_right String.append String.EmptyString l.

(** * Properties *)

(** ** Fixed-width integers *)

Lemma to_int32_id (z : Z) : is_int32 z -> to_int32 z = z.
Proof.
  unfold is_int32, INT_MIN, INT_MAX, to_int32, wrap_signed. intros H.
  change (2 ^ (32 - 1)) with 2147483648. change (2 ^ 32) with 4294967296.
  rewrite Z.mod_small; lia.
Qed.

Lemma to_int64_id (z : Z) : is_int64 z -> to_int64 z = z.
Proof.
  unfold is_int64, to_int64, wrap_signed. intros H.
  change (2 ^ (64 - 1)) with 9223372036854775808.
  change (2 ^ 64) with 18446744073709551616.
  rewrite Z.mod_small; lia.
Qed.

Lemma to_uint16_id (z : Z) : is_uint16 z -> to_uint16 z = z.
Proof.
  unfold is_uint16, to_uint16, wrap_unsigned. intros H.
  apply Z.mod_small. exact H.
Qed.

Lemma to_uint64_id (z : Z) : 0 <= z < 18446744073709551616 -> to_uint64 z = z.
Proof. unfold to_uint64, wrap_unsigned. intros H. apply Z.mod_small. exact H. Qed.

Lemma to_int32_range (z : Z) : is_int32 (to_int32 z).
Proof.
  unfold is_int32, INT_MIN, INT_MAX, to_int32, wrap_signed.
  change (2 ^ (32 - 1)) with 2147483648. change (2 ^ 32) with 4294967296.
  pose proof (Z.mod_pos_bound (z + 2147483648) 4294967296). lia.
Qed.

Lemma to_uint16_range (z : Z) : is_uint16 (to_uint16 z).
Proof.
  unfold is_uint16, to_uint16, wrap_unsigned.
  apply Z.mod_pos_bound. reflexivity.
Qed.

Ltac int_id :=
  repeat first
    [ rewrite to_int32_id by (unfold is_int32, INT_MIN, INT_MAX in *; lia)
    | rewrite to_int64_id by (unfold is_int64 in *; lia)
    | rewrite to_uint64_id by lia
    | rewrite to_uint16_id by (unfold is_uint16 in *; lia) ].

(** ** Spread index *)

Lemma spread_factor_eq (m : Z) :
  0 <= m <= INT_MAX ->
  spread_factor m = m / 16 - m / 32 - m / 64 - m / 1024.
Proof.
  unfold spread_factor, INT_MAX. intros Hm.
  rewrite !Z.shiftr_div_pow2 by lia.
  change (2 ^ 4) with 16; change (2 ^ 5) with 32.
  change (2 ^ 6) with 64; change (2 ^ 10) with 1024.
  rewrite (to_int32_id (m / 16 - m / 32))
    by (unfold is_int32, INT_MIN, INT_MAX; Z.div_mod_to_equations; lia).
  rewrite (to_int32_id (m / 16 - m / 32 - m / 64))
    by (unfold is_int32, INT_MIN, INT_MAX; Z.div_mod_to_equations; lia).
  apply to_int32_id. unfold is_int32, INT_MIN, INT_MAX.
  Z.div_mod_to_equations; lia.
Qed.

Lemma spread_factor_bounds (m : Z) :
  0 <= m <= INT_MAX -> 0 <= spread_factor m <= m / 16.
Proof.
  intros Hm. rewrite spread_factor_eq by assumption. unfold INT_MAX in Hm.
  Z.div_mod_to_equations; lia.
Qed.

Lemma spread_product_fits (m i : Z) :
  1 <= m <= 1023 -> 0 <= i < m -> i * spread_factor m <= INT_MAX.
Proof.
  intros Hm Hi.
  assert (Hf : 0 <= spread_factor m <= m / 16)
    by (apply spread_factor_bounds; unfold INT_MAX; lia).
  assert (m / 16 <= 63) by (Z.div_mod_to_equations; lia).
  unfold INT_MAX. nia.
Qed.

(** C4 (as amended).  For every [int] m >= 1 and every 0 <= i < m such that
    the product of [i] and the spread factor fits in an [int], which it does
    for any m up to 1023, the spread index lies in [0, m-1]: it is [i]
    unchanged for m < 16, and for m >= 16 the spread value
    [i * (m/16 - m/32 - m/64 - m/1024)] when that is below [m], else [m-1]. *)
Theorem spread_index_in_range (m i : Z)
    (Hm : 1 <= m <= INT_MAX) (Hi : 0 <= i < m)
    (Hfit : m <= 1023 \/ i * spread_factor m <= INT_MAX) :
  0 <= get_spread_colour_index i m <= m - 1
  /\ (m < 16 -> get_spread_colour_index i m = i)
  /\ (16 <= m ->
      spread_factor m = m / 16 - m / 32 - m / 64 - m / 1024
      /\ get_spread_colour_index i m =
           if i * spread_factor m <? m then i * spread_factor m else m - 1).
Proof.
  assert (Hprod : i * spread_factor m <= INT_MAX).
  { destruct Hfit as [H | H]; [apply spread_product_fits; lia | exact H]. }
  assert (Hf : 0 <= spread_factor m <= m / 16)
    by (apply spread_factor_bounds; lia).
  assert (H0 : 0 <= i * spread_factor m) by nia.
  unfold get_spread_colour_index.
  destruct (Z.ltb_spec m 16) as [Hlt | Hge].
  - repeat split; try lia.
  - unfold INT_MAX in *. int_id.
    destruct (Z.ltb_spec (i * spread_factor m) m); repeat split; try lia.
    + apply spread_factor_eq. unfold INT_MAX. lia.
    + apply spread_factor_eq. unfold INT_MAX. lia.
Qed.

Lemma spread_index_in_range_witness :
  0 <= get_spread_colour_index 1022 1023 <= 1023 - 1.
Proof.
  apply (spread_index_in_range 1023 1022); unfold INT_MAX; lia.
Defined.

(** C4 as first stated fails for large [int] m: the product overflows and a
    negative spread value passes the test against [m]. *)
Lemma spread_index_overflow :
  get_spread_colour_index 300000 524288 = -1990967296
  /\ ~ (0 <= get_spread_colour_index 300000 524288 <= 524288 - 1).
Proof.
  assert (E : get_spread_colour_index 300000 524288 = -1990967296)
    by (vm_compute; reflexivity).
  split; [exact E | rewrite E; lia].
Qed.

(** ** Test-case guard on [max_iterations] *)

Lemma main_max_iterations_eq (m : Z) :
  main_max_iterations m = if (1 <=? m) && (m <=? 1023) then m else 1.
Proof.
  unfold main_max_iterations. rewrite !Z.gtb_ltb.
  destruct (Z.leb_spec m 0) as [H0 | H0].
  - destruct (Z.leb_spec 1 m); [lia | reflexivity].
  - destruct (Z.ltb_spec 1023 m), (Z.leb_spec 1 m), (Z.leb_spec m 1023);
      simpl; lia.
Qed.

Lemma main_max_iterations_range (m : Z) : 1 <= main_max_iterations m <= 1023.
Proof.
  rewrite main_max_iterations_eq.
  destruct (Z.leb_spec 1 m), (Z.leb_spec m 1023); simpl; lia.
Qed.

Lemma main_max_iterations_idem (m : Z) :
  main_max_iterations (main_max_iterations m) = main_max_iterations m.
Proof.
  pose proof (main_max_iterations_range m) as H.
  rewrite (main_max_iterations_eq (main_max_iterations m)).
  destruct (Z.leb_spec 1 (main_max_iterations m)),
    (Z.leb_spec (main_max_iterations m) 1023); simpl; lia.
Qed.

(** C9.  Whatever [max_iterations] a record supplies, the value used is in
    [1,1023]: a value in that range is kept, and any value below 1 or above
    1023 is reset to 1 (not saturated to 1023), before the colour map is
    built and the frame rendered. *)
Theorem max_iterations_reset (m : Z) :
  1 <= main_max_iterations m <= 1023
  /\ (1 <= m <= 1023 -> main_max_iterations m = m)
  /\ (m < 1 -> main_max_iterations m = 1)
  /\ (1023 < m -> main_max_iterations m = 1)
  /\ (forall fuel cx cy zoom c1 c2 c3 c4 c5 c6,
        main_body fuel cx cy zoom m c1 c2 c3 c4 c5 c6 =
        main_body fuel cx cy zoom (main_max_iterations m) c1 c2 c3 c4 c5 c6).
Proof.
  pose proof (main_max_iterations_range m) as Hr.
  pose proof (main_max_iterations_eq m) as He.
  repeat split; try lia.
  - intros H. rewrite He.
    destruct (Z.leb_spec 1 m), (Z.leb_spec m 1023); simpl; lia.
  - intros H. rewrite He. destruct (Z.leb_spec 1 m); simpl; lia.
  - intros H. rewrite He.
    destruct (Z.leb_spec 1 m), (Z.leb_spec m 1023); simpl; lia.
  - intros. unfold main_body. rewrite main_max_iterations_idem. reflexivity.
Qed.

(** ** Fixed-point multiply *)





(** ** Coordinate mapper *)

Lemma zoom_level_range (zoom : Z) : 0 <= zoom_level zoom <= 10.
Proof.
  unfold zoom_level. rewrite Z.gtb_ltb.
  destruct (Z.ltb_spec 10 zoom); [lia |]. destruct (Z.ltb_spec zoom 0); lia.
Qed.

Lemma zoom_level_eq (zoom : Z) :
  zoom_level zoom = if (0 <=? zoom) && (zoom <=? 10) then zoom else 0.
Proof.
  unfold zoom_level. rewrite Z.gtb_ltb.
  destruct (Z.ltb_spec 10 zoom), (Z.ltb_spec zoom 0),
    (Z.leb_spec 0 zoom), (Z.leb_spec zoom 10); simpl; lia.
Qed.

Lemma pow2_range (k : Z) : 0 <= k <= 10 -> 1 <= 2 ^ k <= 2 ^ 10.
Proof.
  intros Hk. split.
  - pose proof (Z.pow_pos_nonneg 2 k). lia.
  - apply Z.pow_le_mono_r; lia.
Qed.

Lemma center_step_eq (cx cy zoom : Z) :
  cs_step (center_coords cx cy zoom)
  = BASE_INCREMENT_AMOUNT * 2 ^ (10 - zoom_level zoom).
Proof.
  pose proof (zoom_level_range zoom) as Hz.
  unfold center_coords. cbv [cs_step].
  rewrite Z.shiftl_1_l.
  assert (Hp : 1 <= 2 ^ (10 - zoom_level zoom) <= 2 ^ 10)
    by (apply pow2_range; lia).
  unfold BASE_INCREMENT_AMOUNT in *. change (2 ^ 10) with 1024 in Hp.
  rewrite (to_int32_id (2 ^ (10 - zoom_level zoom)))
    by (unfold is_int32, INT_MIN, INT_MAX; lia).
  apply to_int32_id. unfold is_int32, INT_MIN, INT_MAX. lia.
Qed.

Lemma center_top_left (cx cy zoom : Z) :
  cs_x (center_coords cx cy zoom)
  = to_int32 (cx - 320 * cs_step (center_coords cx cy zoom))
  /\ cs_y (center_coords cx cy zoom)
     = to_int32 (cy + 240 * cs_step (center_coords cx cy zoom)).
Proof.
  assert (Hr : 4000 <= cs_step (center_coords cx cy zoom) <= 4096000).
  { rewrite center_step_eq. pose proof (zoom_level_range zoom) as Hz.
    assert (Hp : 1 <= 2 ^ (10 - zoom_level zoom) <= 2 ^ 10)
      by (apply pow2_range; lia).
    unfold BASE_INCREMENT_AMOUNT. change (2 ^ 10) with 1024 in Hp. lia. }
  revert Hr. unfold center_coords. cbv [cs_step cs_x cs_y].
  set (step := to_int32 (BASE_INCREMENT_AMOUNT * _)). intros Hr.
  unfold XSIZE, YSIZE.
  change (Z.shiftr 640 1) with 320. change (Z.shiftr 480 1) with 240.
  rewrite (to_int32_id (320 * step)) by (unfold is_int32, INT_MIN, INT_MAX; lia).
  rewrite (to_int32_id (240 * step)) by (unfold is_int32, INT_MIN, INT_MAX; lia).
  split; reflexivity.
Qed.

Lemma center_step_range (cx cy zoom : Z) :
  4000 <= cs_step (center_coords cx cy zoom) <= 4096000.
Proof.
  rewrite center_step_eq. pose proof (zoom_level_range zoom) as Hz.
  assert (Hp : 1 <= 2 ^ (10 - zoom_level zoom) <= 2 ^ 10)
    by (apply pow2_range; lia).
  unfold BASE_INCREMENT_AMOUNT. change (2 ^ 10) with 1024 in Hp. lia.
Qed.

(** C5 (as amended).  For every center point and every integer zoom the step
    is [BASE_STEP * 2^(10 - zoom')], where zoom' is zoom with any value above
    10 or below 0 reset to 0: zoom 10 gives [BASE_STEP], zoom 0 gives
    [BASE_STEP * 1024], zoom 11 gives what zoom 0 gives.  The top-left point
    is [center.x - 320*step] and [center.y + 240*step] reduced to 32 bits:
    exactly these values whenever they fit a 32-bit fixed-point number. *)
Theorem center_coords_spec (cx cy zoom : Z) :
  let c := center_coords cx cy zoom in
  let zoom' := if (0 <=? zoom) && (zoom <=? 10) then zoom else 0 in
  cs_step c = BASE_INCREMENT_AMOUNT * 2 ^ (10 - zoom')
  /\ cs_x c = to_int32 (cx - 320 * cs_step c)
  /\ cs_y c = to_int32 (cy + 240 * cs_step c)
  /\ (is_int32 (cx - 320 * cs_step c) -> cs_x c = cx - 320 * cs_step c)
  /\ (is_int32 (cy + 240 * cs_step c) -> cs_y c = cy + 240 * cs_step c)
  /\ cs_step (center_coords cx cy 10) = BASE_INCREMENT_AMOUNT
  /\ cs_step (center_coords cx cy 0) = BASE_INCREMENT_AMOUNT * 1024
  /\ center_coords cx cy 11 = center_coords cx cy 0.
Proof.
  intros c zoom'.
  assert (Hstep : cs_step c = BASE_INCREMENT_AMOUNT * 2 ^ (10 - zoom')).
  { subst c zoom'. rewrite center_step_eq, zoom_level_eq. reflexivity. }
  pose proof (center_step_range cx cy zoom) as Hr. fold c in Hr.
  destruct (center_top_left cx cy zoom) as [Hx Hy]. fold c in Hx, Hy.
  repeat split; try assumption.
  - intros H. rewrite Hx. apply to_int32_id, H.
  - intros H. rewrite Hy. apply to_int32_id, H.
Qed.

(** C5 as first stated fails where the top-left point leaves the 32-bit
    range: center x = -2.0 at zoom 0. *)
Lemma center_coords_wraps :
  cs_x (center_coords (- 2 ^ 30) 0 0) = 1910505472
  /\ cs_x (center_coords (- 2 ^ 30) 0 0)
     <> - 2 ^ 30 - 320 * cs_step (center_coords (- 2 ^ 30) 0 0).
Proof. split; [vm_compute; reflexivity | vm_compute; discriminate]. Qed.

(** ** RGB565 packing *)

Lemma all_from_spec (p : Z -> bool) (n : nat) :
  forall z, all_from n z p = true ->
    forall w, z <= w < z + Z.of_nat n -> p w = true.
Proof.
  induction n as [| n IH]; intros z H w Hw; [lia |].
  simpl in H. apply andb_prop in H. destruct H as [Hz Hrest].
  destruct (Z.eq_dec w z) as [-> | N]; [exact Hz |].
  apply (IH (z + 1) Hrest). lia.
Qed.

Lemma all_below_spec (n : Z) (p : Z -> bool) :
  all_below n p = true -> forall z, 0 <= z < n -> p z = true.
Proof.
  unfold all_below. intros H z Hz. apply (all_from_spec p _ 0 H). lia.
Qed.

Lemma channels_check :
  all_below 32 (fun r => all_below 64 (fun g => all_below 32 (fun b =>
    (RED (rgb565 r g b) =? r) && (GREEN (rgb565 r g b) =? g)
    && (BLUE (rgb565 r g b) =? b)))) = true.
Proof. vm_compute. reflexivity. Qed.

Lemma repack_check :
  all_below 65536 (fun c => rgb565 (RED c) (GREEN c) (BLUE c) =? c) = true.
Proof. vm_compute. reflexivity. Qed.

Lemma rgb565_channels (r g b : Z) :
  0 <= r < 32 -> 0 <= g < 64 -> 0 <= b < 32 ->
  RED (rgb565 r g b) = r /\ GREEN (rgb565 r g b) = g /\ BLUE (rgb565 r g b) = b.
Proof.
  intros Hr Hg Hb.
  pose proof (all_below_spec _ _ channels_check r Hr) as H.
  pose proof (all_below_spec _ _ H g Hg) as H'.
  pose proof (all_below_spec _ _ H' b Hb) as H''. cbv beta in H''.
  apply andb_prop in H''. destruct H'' as [H1 H3].
  apply andb_prop in H1. destruct H1 as [H1 H2].
  apply Z.eqb_eq in H1, H2, H3. auto.
Qed.

Lemma rgb565_repack (c : colour) :
  is_uint16 c -> rgb565 (RED c) (GREEN c) (BLUE c) = c.
Proof.
  intros Hc. apply Z.eqb_eq.
  exact (all_below_spec _ _ repack_check c Hc).
Qed.

Lemma land_ones_range (a n : Z) : 0 <= n -> 0 <= Z.land a (Z.ones n) < 2 ^ n.
Proof.
  intros Hn. rewrite Z.land_ones by assumption.
  apply Z.mod_pos_bound, Z.pow_pos_nonneg; lia.
Qed.

Lemma RED_range (c : colour) : 0 <= RED c < 32.
Proof. exact (land_ones_range (Z.shiftr c 11) 5 ltac:(lia)). Qed.

Lemma GREEN_range (c : colour) : 0 <= GREEN c < 64.
Proof. exact (land_ones_range (Z.shiftr c 5) 6 ltac:(lia)). Qed.

Lemma BLUE_range (c : colour) : 0 <= BLUE c < 32.
Proof. exact (land_ones_range c 5 ltac:(lia)). Qed.

Lemma channel_distance_range (cs ce : colour) : 0 <= channel_distance cs ce <= 63.
Proof.
  unfold channel_distance.
  pose proof (RED_range cs); pose proof (RED_range ce).
  pose proof (GREEN_range cs); pose proof (GREEN_range ce).
  pose proof (BLUE_range cs); pose proof (BLUE_range ce). lia.
Qed.

(** ** One channel moving toward its target *)

Lemma toward_0 (s e : Z) : toward s e 0 = s.
Proof. unfold toward. destruct (Z.leb_spec s e); lia. Qed.

Lemma toward_range (s e k : Z) :
  0 <= k -> Z.min s e <= toward s e k <= Z.max s e.
Proof. unfold toward. destruct (Z.leb_spec s e); lia. Qed.

Lemma toward_arrived (s e k : Z) :
  0 <= k -> (toward s e k = e <-> Z.abs (e - s) <= k).
Proof. unfold toward. destruct (Z.leb_spec s e); lia. Qed.

(** One pass of the loop on one channel: [if (v != end) v += inc]. *)
Lemma toward_step (s e k : Z) :
  0 <= k -> 0 <= s < 64 -> 0 <= e < 64 ->
  (if negb (toward s e k =? e)
   then to_uint16 (toward s e k + (if e - s >? 0 then 1 else -1))
   else toward s e k)
  = toward s e (k + 1).
Proof.
  intros Hk Hs He. rewrite Z.gtb_ltb.
  destruct (Z.eqb_spec (toward s e k) e) as [E | E]; simpl.
  - pose proof E as E'. apply toward_arrived in E'; [| assumption].
    rewrite E. symmetry. apply toward_arrived; lia.
  - assert (Hlt : k < Z.abs (e - s)).
    { destruct (Z.lt_ge_cases k (Z.abs (e - s))) as [H | H]; [exact H |].
      apply toward_arrived in H; [contradiction | assumption]. }
    unfold toward in *.
    destruct (Z.ltb_spec 0 (e - s)), (Z.leb_spec s e); try lia;
      rewrite to_uint16_id by (unfold is_uint16; lia); lia.
Qed.

(** ** The path of one segment *)

Lemma last_nth {A : Type} (l : list A) (d : A) :
  last l d = nth (Nat.pred (length l)) l d.
Proof.
  induction l as [| a l IH]; [reflexivity |].
  destruct l as [| b l]; [reflexivity |].
  change (last (a :: b :: l) d) with (last (b :: l) d). rewrite IH. reflexivity.
Qed.

Section Segment.

Variables cs ce : colour.
Hypothesis Hcs : is_uint16 cs.
Hypothesis Hce : is_uint16 ce.

Lemma colour_after_channels (k : Z) :
  0 <= k ->
  RED (colour_after cs ce k) = toward (RED cs) (RED ce) k
  /\ GREEN (colour_after cs ce k) = toward (GREEN cs) (GREEN ce) k
  /\ BLUE (colour_after cs ce k) = toward (BLUE cs) (BLUE ce) k.
Proof.
  intros Hk. unfold colour_after.
  pose proof (toward_range (RED cs) (RED ce) k Hk).
  pose proof (toward_range (GREEN cs) (GREEN ce) k Hk).
  pose proof (toward_range (BLUE cs) (BLUE ce) k Hk).
  pose proof (RED_range cs); pose proof (RED_range ce).
  pose proof (GREEN_range cs); pose proof (GREEN_range ce).
  pose proof (BLUE_range cs); pose proof (BLUE_range ce).
  apply rgb565_channels; lia.
Qed.

Lemma colour_after_0 : colour_after cs ce 0 = cs.
Proof. unfold colour_after. rewrite !toward_0. apply rgb565_repack, Hcs. Qed.

(** The combined colour is the end anchor exactly from pass [channel_distance cs ce] on. *)
Lemma colour_after_end (k : Z) :
  0 <= k -> (colour_after cs ce k = ce <-> channel_distance cs ce <= k).
Proof.
  intros Hk. unfold channel_distance. split.
  - intros E. destruct (colour_after_channels k Hk) as (Hr & Hg & Hb).
    rewrite E in Hr, Hg, Hb.
    symmetry in Hr, Hg, Hb.
    apply toward_arrived in Hr, Hg, Hb; lia.
  - intros Hd. unfold colour_after.
    replace (toward (RED cs) (RED ce) k) with (RED ce)
      by (symmetry; apply toward_arrived; lia).
    replace (toward (GREEN cs) (GREEN ce) k) with (GREEN ce)
      by (symmetry; apply toward_arrived; lia).
    replace (toward (BLUE cs) (BLUE ce) k) with (BLUE ce)
      by (symmetry; apply toward_arrived; lia).
    apply rgb565_repack, Hce.
Qed.

(** The [while] loop entered after [k] passes with [n] passes to go. *)
Lemma interpolate_path (n : nat) :
  forall (k fuel : nat) (acc : list colour),
    Z.of_nat k + Z.of_nat n = channel_distance cs ce ->
    (n <= fuel)%nat ->
    interpolate fuel ce
      (if RED ce - RED cs >? 0 then 1 else -1)
      (if GREEN ce - GREEN cs >? 0 then 1 else -1)
      (if BLUE ce - BLUE cs >? 0 then 1 else -1)
      (colour_after cs ce (Z.of_nat k))
      (toward (RED cs) (RED ce) (Z.of_nat k))
      (toward (GREEN cs) (GREEN ce) (Z.of_nat k))
      (toward (BLUE cs) (BLUE ce) (Z.of_nat k)) acc
    = Ok (acc ++ map (fun j => colour_after cs ce (Z.of_nat j)) (seq (S k) n)).
Proof.
  induction n as [| n IH]; intros k fuel acc Hk Hfuel.
  - assert (E : colour_after cs ce (Z.of_nat k) = ce)
      by (apply colour_after_end; lia).
    destruct fuel; simpl; rewrite E, Z.eqb_refl, app_nil_r; reflexivity.
  - assert (N : colour_after cs ce (Z.of_nat k) <> ce).
    { intros E. apply colour_after_end in E; lia. }
    destruct fuel as [| fuel]; [lia |].
    simpl interpolate. apply Z.eqb_neq in N. rewrite N.
    pose proof (RED_range cs); pose proof (RED_range ce).
    pose proof (GREEN_range cs); pose proof (GREEN_range ce).
    pose proof (BLUE_range cs); pose proof (BLUE_range ce).
    rewrite !toward_step by lia.
    fold (colour_after cs ce (Z.of_nat k + 1)).
    replace (Z.of_nat k + 1) with (Z.of_nat (S k)) by lia.
    rewrite IH by lia.
    simpl seq. simpl map. rewrite <- app_assoc. reflexivity.
Qed.

Lemma interpolate_segment_path (fuel : nat) (acc : list colour) :
  channel_distance cs ce <= Z.of_nat fuel ->
  interpolate_segment fuel cs ce acc = Ok (acc ++ segment_path cs ce).
Proof.
  intros Hfuel. unfold interpolate_segment, segment_path.
  pose proof (channel_distance_range cs ce) as HD.
  pose proof (interpolate_path (Z.to_nat (channel_distance cs ce)) 0 fuel (acc ++ [cs])) as H.
  change (Z.of_nat 0) with 0 in H.
  rewrite colour_after_0, !toward_0 in H.
  rewrite H by lia. rewrite <- app_assoc. reflexivity.
Qed.

Lemma segment_path_length : length (segment_path cs ce) = S (Z.to_nat (channel_distance cs ce)).
Proof. unfold segment_path. simpl. rewrite length_map, length_seq. reflexivity. Qed.

Lemma segment_path_nth (i : nat) :
  (i <= Z.to_nat (channel_distance cs ce))%nat ->
  nth i (segment_path cs ce) 0 = colour_after cs ce (Z.of_nat i).
Proof.
  intros Hi. unfold segment_path. destruct i as [| i].
  - simpl. symmetry. apply colour_after_0.
  - cbn [nth].
    rewrite nth_indep with (d' := colour_after cs ce (Z.of_nat 0))
      by (rewrite length_map, length_seq; lia).
    rewrite (map_nth (fun j => colour_after cs ce (Z.of_nat j))).
    rewrite seq_nth by lia. reflexivity.
Qed.

Lemma segment_path_channel (ch : colour -> Z) (s e : Z) :
  (forall k, 0 <= k -> ch (colour_after cs ce k) = toward s e k) ->
  monotone_between s e (map ch (segment_path cs ce)).
Proof.
  intros Hch i j Hij. rewrite length_map, segment_path_length in Hij.
  assert (N : forall n : nat, (n <= Z.to_nat (channel_distance cs ce))%nat ->
              nth n (map ch (segment_path cs ce)) 0 = toward s e (Z.of_nat n)).
  { intros n Hn.
    rewrite nth_indep with (d' := ch 0)
      by (rewrite length_map, segment_path_length; lia).
    rewrite map_nth, segment_path_nth by exact Hn. apply Hch. lia. }
  rewrite !N by lia. unfold toward.
  destruct (Z.leb_spec s e); lia.
Qed.

Lemma segment_path_ok : segment_ok cs ce (segment_path cs ce).
Proof.
  pose proof (channel_distance_range cs ce) as HD.
  constructor.
  - reflexivity.
  - rewrite last_nth, segment_path_length. cbn [Nat.pred].
    assert (Hlt : (Z.to_nat (channel_distance cs ce)
                   < length (segment_path cs ce))%nat)
      by (rewrite segment_path_length; lia).
    rewrite (nth_indep _ cs 0 Hlt), segment_path_nth by lia.
    apply colour_after_end; lia.
  - intros i Hi. rewrite segment_path_length in Hi.
    rewrite segment_path_nth by lia.
    intros E. apply colour_after_end in E; lia.
  - apply segment_path_channel. intros k Hk. apply colour_after_channels, Hk.
  - apply segment_path_channel. intros k Hk. apply colour_after_channels, Hk.
  - apply segment_path_channel. intros k Hk. apply colour_after_channels, Hk.
Qed.

End Segment.

(** The loop is still running when the fuel is used up before the passes. *)
Lemma interpolate_out_of_fuel (cs ce : colour) (Hcs : is_uint16 cs) (Hce : is_uint16 ce)
    (fuel : nat) :
  forall (k : nat) (acc : list colour),
    Z.of_nat k + Z.of_nat fuel < channel_distance cs ce ->
    interpolate fuel ce
      (if RED ce - RED cs >? 0 then 1 else -1)
      (if GREEN ce - GREEN cs >? 0 then 1 else -1)
      (if BLUE ce - BLUE cs >? 0 then 1 else -1)
      (colour_after cs ce (Z.of_nat k))
      (toward (RED cs) (RED ce) (Z.of_nat k))
      (toward (GREEN cs) (GREEN ce) (Z.of_nat k))
      (toward (BLUE cs) (BLUE ce) (Z.of_nat k)) acc
    = Err out_of_fuel.
Proof.
  induction fuel as [| fuel IH]; intros k acc Hk.
  - assert (N : colour_after cs ce (Z.of_nat k) <> ce).
    { intros E. apply (colour_after_end cs ce Hce) in E; lia. }
    simpl. apply Z.eqb_neq in N. rewrite N. reflexivity.
  - assert (N : colour_after cs ce (Z.of_nat k) <> ce).
    { intros E. apply (colour_after_end cs ce Hce) in E; lia. }
    simpl interpolate. apply Z.eqb_neq in N. rewrite N.
    pose proof (RED_range cs); pose proof (RED_range ce).
    pose proof (GREEN_range cs); pose proof (GREEN_range ce).
    pose proof (BLUE_range cs); pose proof (BLUE_range ce).
    rewrite !toward_step by lia.
    fold (colour_after cs ce (Z.of_nat k + 1)).
    replace (Z.of_nat k + 1) with (Z.of_nat (S k)) by lia.
    apply IH. lia.
Qed.

Lemma interpolate_segment_out_of_fuel (cs ce : colour) (fuel : nat) (acc : list colour) :
  is_uint16 cs -> is_uint16 ce ->
  Z.of_nat fuel < channel_distance cs ce ->
  interpolate_segment fuel cs ce acc = Err out_of_fuel.
Proof.
  intros Hcs Hce Hfuel. unfold interpolate_segment.
  pose proof (interpolate_out_of_fuel cs ce Hcs Hce fuel 0 (acc ++ [cs])) as H.
  change (Z.of_nat 0) with 0 in H.
  rewrite colour_after_0, !toward_0 in H by assumption.
  apply H. lia.
Qed.

(** ** All five segments *)

Lemma segments_from_step (n : nat) (i : Z) (fuel : nat) (pts uc : list colour)
    (a b : colour) :
  at_ pts i = Ok a -> at_ pts (i + 1) = Ok b ->
  is_uint16 a -> is_uint16 b -> (63 <= fuel)%nat ->
  segments_from (S n) i fuel pts uc
  = segments_from n (i + 1) fuel pts (uc ++ segment_path a b).
Proof.
  intros Ha Hb Ua Ub Hfuel. simpl. rewrite Ha, Hb. simpl.
  pose proof (channel_distance_range a b).
  rewrite interpolate_segment_path by (assumption || lia). reflexivity.
Qed.

Lemma six_anchors (pts : list colour) :
  length pts = 6%nat -> Forall is_uint16 pts ->
  exists p0 p1 p2 p3 p4 p5,
    pts = [p0; p1; p2; p3; p4; p5]
    /\ is_uint16 p0 /\ is_uint16 p1 /\ is_uint16 p2
    /\ is_uint16 p3 /\ is_uint16 p4 /\ is_uint16 p5.
Proof.
  intros Hlen Hcol.
  destruct pts as [| p0 [| p1 [| p2 [| p3 [| p4 [| p5 [| ? ?]]]]]]];
    try discriminate Hlen.
  exists p0, p1, p2, p3, p4, p5.
  repeat match goal with
         | H : Forall _ (_ :: _) |- _ => inversion H; subst; clear H
         end.
  split; [reflexivity |]. repeat (split; [assumption |]). assumption.
Qed.

Lemma generate_unique_colours_paths (fuel : nat) (uc pts : list colour) :
  length pts = 6%nat -> Forall is_uint16 pts -> (63 <= fuel)%nat ->
  generate_unique_colours fuel uc pts = Ok (uc ++ concat (anchor_paths pts)).
Proof.
  intros Hlen Hcol Hfuel.
  destruct (six_anchors pts Hlen Hcol)
    as (p0 & p1 & p2 & p3 & p4 & p5 & -> & U0 & U1 & U2 & U3 & U4 & U5).
  unfold generate_unique_colours.
  rewrite (segments_from_step 4 0 fuel _ uc p0 p1) by (reflexivity || assumption).
  rewrite (segments_from_step 3 (0 + 1) fuel _ _ p1 p2)
    by (reflexivity || assumption).
  rewrite (segments_from_step 2 (0 + 1 + 1) fuel _ _ p2 p3)
    by (reflexivity || assumption).
  rewrite (segments_from_step 1 (0 + 1 + 1 + 1) fuel _ _ p3 p4)
    by (reflexivity || assumption).
  rewrite (segments_from_step 0 (0 + 1 + 1 + 1 + 1) fuel _ _ p4 p5)
    by (reflexivity || assumption).
  cbn [segments_from anchor_paths seq map nth concat].
  rewrite app_nil_r, <- !app_assoc. reflexivity.
Qed.

Lemma anchor_paths_nth (pts : list colour) (i : nat) :
  (i < 5)%nat ->
  nth i (anchor_paths pts) [] = segment_path (nth i pts 0) (nth (S i) pts 0).
Proof.
  intros Hi. unfold anchor_paths.
  do 5 (destruct i as [| i]; [reflexivity |]). lia.
Qed.

Lemma anchors_nth_uint16 (pts : list colour) (i : nat) :
  Forall is_uint16 pts -> is_uint16 (nth i pts 0).
Proof.
  intros Hcol. destruct (Nat.lt_ge_cases i (length pts)) as [H | H].
  - rewrite Forall_forall in Hcol. apply Hcol, nth_In, H.
  - rewrite nth_overflow by exact H. unfold is_uint16. lia.
Qed.

(** C6.  For six anchor colours the unique colours are the concatenation of
    five segments.  The colours segment [i] appends start with anchor [i],
    end with anchor [i+1], hold anchor [i+1] nowhere before the end, and in
    each of the red, green and blue channels run monotonically from the
    start anchor's value to the end anchor's value, never leaving the
    interval between the two. *)
Theorem segments_monotonic (pts : list colour) (fuel : nat)
    (Hlen : length pts = 6%nat) (Hcol : Forall is_uint16 pts)
    (Hfuel : (63 <= fuel)%nat) :
  exists segs : list (list colour),
    length segs = 5%nat
    /\ generate_unique_colours fuel [] pts = Ok (concat segs)
    /\ forall i : nat, (i < 5)%nat ->
         (forall acc,
             interpolate_segment fuel (nth i pts 0) (nth (S i) pts 0) acc
             = Ok (acc ++ nth i segs []))
         /\ segment_ok (nth i pts 0) (nth (S i) pts 0) (nth i segs []).
Proof.
  exists (anchor_paths pts). split; [reflexivity |]. split.
  - apply (generate_unique_colours_paths fuel []); assumption.
  - intros i Hi. rewrite anchor_paths_nth by exact Hi.
    pose proof (anchors_nth_uint16 pts i Hcol) as Ui.
    pose proof (anchors_nth_uint16 pts (S i) Hcol) as Usi.
    pose proof (channel_distance_range (nth i pts 0) (nth (S i) pts 0)).
    split.
    + intros acc. apply interpolate_segment_path; (assumption || lia).
    + apply segment_path_ok; assumption.
Qed.

Lemma test_anchors_uint16 : Forall is_uint16 test_anchors.
Proof. unfold test_anchors, is_uint16. repeat constructor; lia. Defined.

Lemma segments_monotonic_witness :
  exists segs : list (list colour),
    length segs = 5%nat
    /\ generate_unique_colours 63 [] test_anchors = Ok (concat segs).
Proof.
  destruct (segments_monotonic test_anchors 63 eq_refl test_anchors_uint16 (le_n 63))
    as (segs & H1 & H2 & _).
  exists segs. split; assumption.
Defined.

Lemma unique_colours_length (pts : list colour) :
  length pts = 6%nat -> Forall is_uint16 pts ->
  (5 <= length (concat (anchor_paths pts)) <= 320)%nat.
Proof.
  intros Hlen Hcol.
  destruct (six_anchors pts Hlen Hcol)
    as (p0 & p1 & p2 & p3 & p4 & p5 & -> & _).
  cbn [anchor_paths seq map nth concat].
  rewrite !length_app, !segment_path_length. cbn [length].
  pose proof (channel_distance_range p0 p1).
  pose proof (channel_distance_range p1 p2).
  pose proof (channel_distance_range p2 p3).
  pose proof (channel_distance_range p3 p4).
  pose proof (channel_distance_range p4 p5).
  lia.
Qed.

Lemma unique_colours_head (pts : list colour) :
  hd_error (concat (anchor_paths pts)) = Some (nth 0 pts 0).
Proof. reflexivity. Qed.

(** C10.  For six anchor colours and any fuel from 63 up, every segment's
    loop ends: after [k] passes each channel stands [k] units from its start
    toward the end anchor's value, or at that value once reached, so the
    combined colour is the end anchor after exactly the largest per-channel
    distance many passes (at most 63), and fewer passes never suffice.  The
    unique colours are therefore a finite sequence, of at least 5 and at
    most 320 colours, whose first element is the first anchor. *)
Theorem unique_colours_terminate (pts : list colour) (fuel : nat)
    (Hlen : length pts = 6%nat) (Hcol : Forall is_uint16 pts)
    (Hfuel : (63 <= fuel)%nat) :
  exists u : list colour,
    generate_unique_colours fuel [] pts = Ok u
    /\ u <> []
    /\ hd_error u = Some (nth 0 pts 0)
    /\ (5 <= length u <= 320)%nat
    /\ forall i : nat, (i < 5)%nat ->
         let cs := nth i pts 0 in
         let ce := nth (S i) pts 0 in
         0 <= channel_distance cs ce <= 63
         /\ (forall (fuel' : nat) (acc : list colour),
               channel_distance cs ce <= Z.of_nat fuel' ->
               exists s : list colour,
                 interpolate_segment fuel' cs ce acc = Ok (acc ++ s)
                 /\ Z.of_nat (length s) = channel_distance cs ce + 1
                 /\ forall k : nat, Z.of_nat k <= channel_distance cs ce ->
                      RED (nth k s 0) = toward (RED cs) (RED ce) (Z.of_nat k)
                      /\ GREEN (nth k s 0) = toward (GREEN cs) (GREEN ce) (Z.of_nat k)
                      /\ BLUE (nth k s 0) = toward (BLUE cs) (BLUE ce) (Z.of_nat k))
         /\ (forall (fuel' : nat) (acc : list colour),
               Z.of_nat fuel' < channel_distance cs ce ->
               interpolate_segment fuel' cs ce acc = Err out_of_fuel).
Proof.
  exists (concat (anchor_paths pts)).
  pose proof (unique_colours_length pts Hlen Hcol) as Hl.
  split; [apply (generate_unique_colours_paths fuel []); assumption |].
  split; [intros E; rewrite E in Hl; simpl in Hl; lia |].
  split; [apply unique_colours_head |].
  split; [exact Hl |].
  intros i Hi cs ce.
  pose proof (anchors_nth_uint16 pts i Hcol) as Ucs.
  pose proof (anchors_nth_uint16 pts (S i) Hcol) as Uce.
  fold cs in Ucs. fold ce in Uce.
  pose proof (channel_distance_range cs ce) as HD.
  split; [exact HD |]. split.
  - intros fuel' acc Hf. exists (segment_path cs ce).
    split; [apply interpolate_segment_path; assumption |].
    split; [rewrite segment_path_length; lia |].
    intros k Hk. rewrite segment_path_nth by (assumption || lia).
    apply colour_after_channels. lia.
  - intros fuel' acc Hf. apply interpolate_segment_out_of_fuel; assumption.
Qed.

Lemma unique_colours_terminate_witness :
  exists u : list colour,
    generate_unique_colours 63 [] test_anchors = Ok u /\ u <> [].
Proof.
  destruct (unique_colours_terminate test_anchors 63 eq_refl test_anchors_uint16
              (le_n 63)) as (u & H1 & H2 & _).
  exists u. split; assumption.
Defined.

(** ** Strides of the resampling *)

(** On the range of [max_iterations], the double precision quotient and its
    ceiling give the integer ceiling of the exact quotient, checked on every
    pair. *)
Lemma upsample_step_check :
  all_below 1024 (fun m => all_below (m + 1) (fun u =>
    (u =? 0)
    || PrimFloat.Leibniz.eqb
         (ceil (PrimFloat.div (double_of_Z m) (double_of_Z u)))
         (double_of_Z (ceil_stride m u)))) = true.
Proof. vm_compute. reflexivity. Qed.

Lemma int_of_double_check :
  all_below 1024 (fun q => int_of_double (double_of_Z q) =? q) = true.
Proof. vm_compute. reflexivity. Qed.

Lemma ceil_stride_bounds (m u : Z) :
  1 <= u <= m -> 1 <= ceil_stride m u <= m /\ m <= ceil_stride m u * u
  /\ (ceil_stride m u - 1) * u < m.
Proof.
  intros H. unfold ceil_stride.
  pose proof (Z.div_mod (m + u - 1) u ltac:(lia)) as E.
  pose proof (Z.mod_pos_bound (m + u - 1) u ltac:(lia)) as B.
  set (q := (m + u - 1) / u) in *. set (r := (m + u - 1) mod u) in *.
  assert (1 <= q) by nia. assert (q <= m) by nia.
  repeat split; nia.
Qed.

Lemma upsample_step_size_eq (m u : Z) :
  1 <= u <= m -> m <= 1023 ->
  upsample_step_size m u = ceil_stride m u.
Proof.
  intros Hu Hm. unfold upsample_step_size.
  pose proof (all_below_spec _ _ upsample_step_check m ltac:(lia)) as H.
  pose proof (all_below_spec _ _ H u ltac:(lia)) as H'. cbv beta in H'.
  apply orb_prop in H'. destruct H' as [H' | H'].
  - apply Z.eqb_eq in H'. lia.
  - apply FloatAxioms.Leibniz.eqb_spec in H'. rewrite H'.
    apply Z.eqb_eq.
    apply (all_below_spec _ _ int_of_double_check).
    pose proof (ceil_stride_bounds m u Hu). lia.
Qed.

Lemma downsample_step_size_eq (m u : Z) :
  1 <= m < u -> u <= INT_MAX ->
  downsample_step_size m u = floor_stride u m
  /\ 1 <= floor_stride u m /\ floor_stride u m * m <= u.
Proof.
  unfold downsample_step_size, floor_stride, INT_MAX. intros Hm Hu.
  rewrite (to_uint64_id m) by lia.
  pose proof (Z.div_mod u m ltac:(lia)) as E.
  pose proof (Z.mod_pos_bound u m ltac:(lia)) as B.
  set (q := u / m) in *.
  assert (1 <= q) by nia. assert (q <= u) by nia.
  rewrite to_int32_id by (unfold is_int32, INT_MIN, INT_MAX; lia).
  repeat split; nia.
Qed.

(** ** Reads of the resampling loops *)

Lemma at_in_range {A : Type} (v : list A) (i : Z) :
  0 <= i < size v -> exists a, at_ v i = Ok a.
Proof.
  unfold size, at_. intros Hi.
  destruct (Z.leb_spec 0 i); [| lia].
  destruct (Z.ltb_spec i (Z.of_nat (length v))); [| lia]. simpl.
  destruct (nth_error v (Z.to_nat i)) as [a |] eqn:E; [exists a; reflexivity |].
  apply nth_error_None in E. lia.
Qed.

Lemma at_out_of_range {A : Type} (v : list A) (i : Z) :
  ~ 0 <= i < size v -> at_ v i = Err out_of_range.
Proof.
  unfold size, at_. intros Hi.
  destruct (Z.leb_spec 0 i), (Z.ltb_spec i (Z.of_nat (length v))); simpl;
    try reflexivity. lia.
Qed.

Lemma downsample_loop_reads (u : list colour) (n : nat) :
  forall step idx cm,
    downsample_loop n step idx u cm = read_all u (downsample_reads n step idx) cm.
Proof.
  induction n as [| n IH]; intros step idx cm; simpl; [reflexivity |].
  destruct (at_ u idx); simpl; [apply IH | reflexivity].
Qed.

Lemma upsample_loop_reads (u : list colour) (n : nat) :
  forall i step idx cm,
    upsample_loop n i step idx u cm = read_all u (upsample_reads n i step idx) cm.
Proof.
  induction n as [| n IH]; intros i step idx cm; simpl; [reflexivity |].
  destruct (at_ u idx); simpl; [apply IH | reflexivity].
Qed.

Lemma generate_colour_map_reads (m : Z) (u cm : list colour) :
  generate_colour_map m u cm = read_all u (colour_map_reads m (size u)) cm.
Proof.
  unfold generate_colour_map, colour_map_reads.
  destruct (size u >? to_uint64 m).
  - apply downsample_loop_reads.
  - apply upsample_loop_reads.
Qed.

Lemma downsample_reads_length (n : nat) :
  forall step idx, length (downsample_reads n step idx) = n.
Proof. induction n as [| n IH]; intros; simpl; [| rewrite IH]; reflexivity. Qed.

Lemma upsample_reads_length (n : nat) :
  forall i step idx, length (upsample_reads n i step idx) = n.
Proof. induction n as [| n IH]; intros; simpl; [| rewrite IH]; reflexivity. Qed.

Lemma colour_map_reads_length (m u : Z) :
  length (colour_map_reads m u) = Z.to_nat m.
Proof.
  unfold colour_map_reads. destruct (u >? to_uint64 m).
  - apply downsample_reads_length.
  - apply upsample_reads_length.
Qed.

(** Reads that are all in range succeed and append one colour each. *)
Lemma read_all_in_range (v : list colour) (indices : list Z) :
  Forall (fun i => 0 <= i < size v) indices ->
  forall acc, exists cs,
    read_all v indices acc = Ok (acc ++ cs) /\ length cs = length indices.
Proof.
  induction 1 as [| i rest Hi _ IH]; intros acc.
  - exists []. rewrite app_nil_r. split; reflexivity.
  - destruct (at_in_range v i Hi) as [c Hc].
    destruct (IH (acc ++ [c])) as (cs & E & L).
    exists (c :: cs). simpl. rewrite Hc. simpl. rewrite E, <- app_assoc.
    split; [reflexivity | simpl; rewrite L; reflexivity].
Qed.

(** A read out of range is the only way for the reads to fail. *)
Lemma read_all_fails (v : list colour) (indices : list Z) :
  forall acc e, read_all v indices acc = Err e ->
    e = out_of_range /\ Exists (fun i => ~ 0 <= i < size v) indices.
Proof.
  induction indices as [| i rest IH]; intros acc e H; simpl in H.
  - discriminate.
  - destruct (at_ v i) as [c | e'] eqn:E; simpl in H.
    + destruct (IH _ _ H) as [He Hex]. split; [exact He | right; exact Hex].
    + injection H as <-.
      assert (N : ~ 0 <= i < size v).
      { intros Hi. destruct (at_in_range v i Hi) as [c Hc]. congruence. }
      rewrite (at_out_of_range v i N) in E. injection E as <-.
      split; [reflexivity | left; exact N].
Qed.

Lemma downsample_reads_range (U : Z) (n : nat) :
  forall step idx,
    1 <= step -> 0 <= idx -> idx + Z.of_nat n * step <= U -> U <= INT_MAX ->
    Forall (fun i => 0 <= i < U) (downsample_reads n step idx).
Proof.
  induction n as [| n IH]; intros step idx Hs Hi Hb HU; simpl; constructor.
  - nia.
  - rewrite to_int32_id by (unfold is_int32, INT_MIN, INT_MAX in *; nia).
    apply IH; (lia || nia).
Qed.

(** The index of the upsampling loop is the loop counter divided by the
    stride: [step * idx <= i < step * idx + step] at every read. *)
Lemma upsample_reads_range (U : Z) (n : nat) :
  forall i step idx,
    1 <= step -> 0 <= idx -> step * idx <= i < step * idx + step ->
    i + Z.of_nat n <= step * U -> U <= INT_MAX ->
    Forall (fun j => 0 <= j < U) (upsample_reads n i step idx).
Proof.
  induction n as [| n IH]; intros i step idx Hs Hidx Hinv Hb HU; simpl;
    constructor.
  - nia.
  - assert (Hlt : idx < U) by nia.
    rewrite Z.rem_mod_nonneg by lia.
    destruct (Z.eqb_spec ((i + 1) mod step) 0) as [E | E].
    + rewrite to_int32_id by (unfold is_int32, INT_MIN, INT_MAX in *; lia).
      apply Z.mod_divide in E; [| lia]. destruct E as [k Ek].
      assert (k = idx + 1) by nia.
      apply IH; (lia || nia).
    + assert (i + 1 <> step * (idx + 1)).
      { intros C. apply E. rewrite C, Z.mul_comm. apply Z.mod_mul. lia. }
      apply IH; (lia || nia).
Qed.

Lemma colour_map_reads_range (m U : Z) :
  1 <= m <= 1023 -> 1 <= U <= INT_MAX ->
  Forall (fun i => 0 <= i < U) (colour_map_reads m U).
Proof.
  intros Hm HU. unfold colour_map_reads.
  rewrite (to_uint64_id m) by lia. rewrite Z.gtb_ltb.
  destruct (Z.ltb_spec m U) as [Hlt | Hge].
  - destruct (downsample_step_size_eq m U ltac:(lia) ltac:(lia)) as (E & H1 & H2).
    rewrite E. apply downsample_reads_range; try lia;
      rewrite Z2Nat.id by lia; lia.
  - rewrite upsample_step_size_eq by lia.
    destruct (ceil_stride_bounds m U ltac:(lia)) as (H1 & H2 & H3).
    apply upsample_reads_range; try lia;
      rewrite Z2Nat.id by lia; lia.
Qed.

(** The colour map of a non-empty vector: no read fails, and one colour is
    appended per iteration. *)
Lemma generate_colour_map_ok (m : Z) (u cm : list colour) :
  1 <= m <= 1023 -> 1 <= size u <= INT_MAX ->
  exists cs, generate_colour_map m u cm = Ok (cm ++ cs) /\ size cs = m.
Proof.
  intros Hm Hu. rewrite generate_colour_map_reads.
  destruct (read_all_in_range u _ (colour_map_reads_range m (size u) Hm Hu) cm)
    as (cs & E & L).
  exists cs. split; [exact E |].
  unfold size. rewrite L, colour_map_reads_length. lia.
Qed.

Lemma unique_colours_size (pts : list colour) :
  length pts = 6%nat -> Forall is_uint16 pts ->
  5 <= size (concat (anchor_paths pts)) <= 320.
Proof.
  intros Hlen Hcol. pose proof (unique_colours_length pts Hlen Hcol).
  unfold size. lia.
Qed.

(** C1.  For every [max_iterations] in [1,1023] and any six anchor colours,
    the unique colours are generated and the colour map built from them has
    exactly [max_iterations] entries. *)
Theorem colour_map_length (pts : list colour) (fuel : nat) (max_iterations : Z)
    (Hlen : length pts = 6%nat) (Hcol : Forall is_uint16 pts)
    (Hfuel : (63 <= fuel)%nat) (Hmax : 1 <= max_iterations <= 1023) :
  exists unique_colours colour_map : list colour,
    generate_unique_colours fuel [] pts = Ok unique_colours
    /\ generate_colour_map max_iterations unique_colours [] = Ok colour_map
    /\ size colour_map = max_iterations.
Proof.
  pose proof (unique_colours_size pts Hlen Hcol) as Hs.
  destruct (generate_colour_map_ok max_iterations (concat (anchor_paths pts)) []
              Hmax ltac:(unfold INT_MAX; lia)) as (cs & E & L).
  exists (concat (anchor_paths pts)), cs.
  split; [apply generate_unique_colours_paths; assumption |].
  split; [exact E | exact L].
Qed.

Lemma colour_map_length_witness :
  exists unique_colours colour_map : list colour,
    generate_unique_colours 63 [] test_anchors = Ok unique_colours
    /\ generate_colour_map 50 unique_colours [] = Ok colour_map
    /\ size colour_map = 50.
Proof.
  apply (colour_map_length test_anchors 63 50 eq_refl test_anchors_uint16 (le_n 63)).
  lia.
Defined.

(** C2.  For every [max_iterations] in [1,1023] and the unique colours of any
    six anchors (never empty), the stride is [floor(count / max_iterations)]
    when downsampling and [ceil(max_iterations / count)] when upsampling,
    the colour map is the result of reading the unique colours at the
    indices the loops visit, and each of those indices is below the count:
    no read is out of range. *)
Theorem colour_map_reads_in_range (pts : list colour) (fuel : nat) (max_iterations : Z)
    (Hlen : length pts = 6%nat) (Hcol : Forall is_uint16 pts)
    (Hfuel : (63 <= fuel)%nat) (Hmax : 1 <= max_iterations <= 1023) :
  exists unique_colours : list colour,
    generate_unique_colours fuel [] pts = Ok unique_colours
    /\ unique_colours <> []
    /\ (max_iterations < size unique_colours ->
        downsample_step_size max_iterations (size unique_colours)
        = floor_stride (size unique_colours) max_iterations)
    /\ (size unique_colours <= max_iterations ->
        upsample_step_size max_iterations (size unique_colours)
        = ceil_stride max_iterations (size unique_colours))
    /\ (forall colour_map,
          generate_colour_map max_iterations unique_colours colour_map
          = read_all unique_colours
              (colour_map_reads max_iterations (size unique_colours)) colour_map)
    /\ Forall (fun i => 0 <= i < size unique_colours)
         (colour_map_reads max_iterations (size unique_colours))
    /\ (forall colour_map e,
          generate_colour_map max_iterations unique_colours colour_map <> Err e).
Proof.
  pose proof (unique_colours_size pts Hlen Hcol) as Hs.
  set (u := concat (anchor_paths pts)) in *.
  assert (HU : 1 <= size u <= INT_MAX) by (unfold INT_MAX; lia).
  exists u.
  split; [apply generate_unique_colours_paths; assumption |].
  split; [intros E; rewrite E in Hs; unfold size in Hs; simpl in Hs; lia |].
  split; [intros H; apply downsample_step_size_eq; lia |].
  split; [intros H; apply upsample_step_size_eq; lia |].
  split; [intros cm; apply generate_colour_map_reads |].
  split; [apply colour_map_reads_range; assumption |].
  intros cm e H.
  destruct (generate_colour_map_ok max_iterations u cm Hmax HU) as (cs & E & _).
  congruence.
Qed.

Lemma colour_map_reads_in_range_witness :
  exists unique_colours : list colour,
    generate_unique_colours 63 [] test_anchors = Ok unique_colours
    /\ Forall (fun i => 0 <= i < size unique_colours)
         (colour_map_reads 1023 (size unique_colours)).
Proof.
  destruct (colour_map_reads_in_range test_anchors 63 1023 eq_refl
              test_anchors_uint16 (le_n 63))
    as (u & H1 & _ & _ & _ & _ & H2 & _); [lia |].
  exists u. split; assumption.
Defined.

(** ** Escape-time iteration *)

Lemma escape_threshold : to_uint64 (Z.shiftl 4 FRAC_BITS) = 2147483648.
Proof. reflexivity. Qed.

(** The [while] loop has come to its end after [max_iterations] passes. *)
Lemma iter_loop_exits (x y m : Z) (n : nat) :
  m <= INT_MAX ->
  forall st, 0 <= iterations st -> m <= iterations st + Z.of_nat n ->
    iter_continues m (iter_loop n x y m st) = false.
Proof.
  intros Hm. induction n as [| n IH]; intros st H0 Hn; simpl.
  - unfold iter_continues. destruct (Z.ltb_spec (iterations st) m); [lia |].
    apply andb_false_r.
  - destruct (iter_continues m st) eqn:C; [| exact C].
    unfold iter_continues in C. apply andb_prop in C. destruct C as [_ C].
    apply Z.ltb_lt in C.
    assert (E : iterations (iter_body x y st) = iterations st + 1).
    { unfold iter_body; cbn [iterations].
      apply to_int32_id. unfold is_int32, INT_MIN, INT_MAX in *. lia. }
    apply IH; rewrite E; lia.
Qed.

Lemma escape_time_exits (x y m : Z) :
  0 <= m <= INT_MAX -> iter_continues m (escape_time x y m) = false.
Proof.
  intros Hm. unfold escape_time. apply iter_loop_exits; simpl; lia.
Qed.

Lemma fixed_mult_interior (a b : Z) :
  - interior_z <= a <= interior_z -> - interior_z <= b <= interior_z ->
  -18626452 <= fixed_mult a b <= 18626451.
Proof.
  unfold interior_z. intros Ha Hb.
  assert (Hp : -10000000000000000 <= a * b <= 10000000000000000) by nia.
  unfold fixed_mult, FRAC_BITS.
  rewrite to_int64_id by (unfold is_int64; lia).
  rewrite Z.shiftr_div_pow2 by lia. change (2 ^ 29) with 536870912.
  Z.div_mod_to_equations. lia.
Qed.

Lemma fixed_mult_square (a : Z) :
  - interior_z <= a <= interior_z -> 0 <= fixed_mult a a.
Proof.
  unfold interior_z. intros Ha.
  assert (Hp : 0 <= a * a <= 10000000000000000) by nia.
  unfold fixed_mult, FRAC_BITS.
  rewrite to_int64_id by (unfold is_int64; lia).
  rewrite Z.shiftr_div_pow2 by lia. change (2 ^ 29) with 536870912.
  Z.div_mod_to_equations. lia.
Qed.

Section Interior.

Variables x_fixed y_fixed : Z.
Hypothesis Hx : - interior_x <= x_fixed <= interior_x.
Hypothesis Hy : - interior_y <= y_fixed <= interior_y.

(** One pass keeps [z] inside the region and below the threshold. *)
Lemma iter_body_interior (st : iter_state) :
  interior_state st -> interior_state (iter_body x_fixed y_fixed st).
Proof.
  intros (Hr & Hi & _).
  pose proof (fixed_mult_interior _ _ Hr Hr) as Brr.
  pose proof (fixed_mult_interior _ _ Hi Hi) as Bii.
  pose proof (fixed_mult_interior _ _ Hr Hi) as Bri.
  pose proof (fixed_mult_square _ Hr) as Prr.
  pose proof (fixed_mult_square _ Hi) as Pii.
  unfold interior_state, iter_body; cbn [zr zi modulus_sq].
  unfold interior_x, interior_y, interior_z in *.
  rewrite Z.shiftl_mul_pow2 by lia. change (2 ^ 1) with 2.
  set (rr := fixed_mult (zr st) (zr st)) in *.
  set (ii := fixed_mult (zi st) (zi st)) in *.
  set (ri := fixed_mult (zr st) (zi st)) in *.
  rewrite (to_int64_id (rr + ii)) by (unfold is_int64; lia).
  rewrite (to_uint64_id (rr + ii)) by lia.
  rewrite (to_int64_id (rr - ii)) by (unfold is_int64; lia).
  rewrite (to_int64_id (rr - ii + x_fixed)) by (unfold is_int64; lia).
  rewrite (to_int64_id (ri * 2)) by (unfold is_int64; lia).
  rewrite (to_int64_id (ri * 2 + y_fixed)) by (unfold is_int64; lia).
  lia.
Qed.

(** From an interior state the loop runs all the passes it is given. *)
Lemma iter_loop_interior (m : Z) (n : nat) :
  m <= INT_MAX ->
  forall st,
    interior_state st -> 0 <= iterations st -> iterations st + Z.of_nat n <= m ->
    interior_state (iter_loop n x_fixed y_fixed m st)
    /\ iterations (iter_loop n x_fixed y_fixed m st) = iterations st + Z.of_nat n.
Proof.
  intros Hm. induction n as [| n IH]; intros st Hst H0 Hn; simpl iter_loop.
  - split; [exact Hst | lia].
  - assert (C : iter_continues m st = true).
    { unfold iter_continues. rewrite escape_threshold.
      destruct Hst as (_ & _ & Hmod).
      apply andb_true_intro. split; [apply Z.leb_le | apply Z.ltb_lt]; lia. }
    rewrite C.
    assert (E : iterations (iter_body x_fixed y_fixed st) = iterations st + 1).
    { unfold iter_body; cbn [iterations].
      apply to_int32_id. unfold is_int32, INT_MIN, INT_MAX in *. lia. }
    destruct (IH (iter_body x_fixed y_fixed st)) as [I1 I2];
      [apply iter_body_interior, Hst | lia | lia |].
    split; [exact I1 | rewrite I2, E; lia].
Qed.

Lemma escape_time_interior (m : Z) :
  0 <= m <= INT_MAX ->
  iterations (escape_time x_fixed y_fixed m) = m
  /\ interior_state (escape_time x_fixed y_fixed m).
Proof.
  intros Hm. unfold escape_time.
  destruct (iter_loop_interior m (Z.to_nat m) ltac:(lia) iter_init) as [I1 I2].
  - unfold interior_state, interior_z; simpl; lia.
  - simpl; lia.
  - simpl; lia.
  - split; [rewrite I2; simpl; lia | exact I1].
Qed.

(** An interior sample point is drawn in the sentinel colour. *)
Lemma pixel_colour_interior (m : Z) (colour_map : list colour) :
  0 <= m <= INT_MAX ->
  pixel_colour x_fixed y_fixed m colour_map = Ok 0.
Proof.
  intros Hm. unfold pixel_colour.
  destruct (escape_time_interior m Hm) as [E _]. rewrite E, Z.ltb_irrefl.
  reflexivity.
Qed.

End Interior.

(** ** The origin *)

Lemma iter_body_origin (j : Z) :
  0 <= j < INT_MAX ->
  iter_body 0 0 (mk_iter_state j 0 0 0) = mk_iter_state (j + 1) 0 0 0.
Proof.
  intros Hj. unfold iter_body; cbn [iterations zr zi modulus_sq].
  rewrite to_int32_id by (unfold is_int32, INT_MIN, INT_MAX in *; lia).
  reflexivity.
Qed.

Lemma iter_loop_origin (m : Z) (k : nat) :
  m <= INT_MAX ->
  forall j, 0 <= j -> j + Z.of_nat k <= m ->
    iter_loop k 0 0 m (mk_iter_state j 0 0 0) = mk_iter_state (j + Z.of_nat k) 0 0 0.
Proof.
  intros Hm. induction k as [| k IH]; intros j Hj Hk; simpl iter_loop.
  - f_equal. lia.
  - assert (C : iter_continues m (mk_iter_state j 0 0 0) = true).
    { unfold iter_continues; cbn [iterations modulus_sq].
      rewrite escape_threshold.
      apply andb_true_intro. split; [reflexivity | apply Z.ltb_lt; lia]. }
    rewrite C, iter_body_origin by lia. rewrite IH by lia. f_equal. lia.
Qed.

(** C3.  At the sample point (0,0), for every [int] [max_iterations >= 1],
    the loop passes its guard [k] times for every [k] up to
    [max_iterations], with [z] and the squared modulus still 0; it ends with
    the iteration count equal to [max_iterations] and the squared modulus
    not above the escape threshold, and the pixel gets the sentinel colour
    0 whatever the colour map. *)
Theorem origin_never_escapes (max_iterations : Z)
    (Hmax : 1 <= max_iterations <= INT_MAX) :
  (forall k : nat, Z.of_nat k <= max_iterations ->
     iter_loop k 0 0 max_iterations iter_init = mk_iter_state (Z.of_nat k) 0 0 0)
  /\ escape_time 0 0 max_iterations = mk_iter_state max_iterations 0 0 0
  /\ iterations (escape_time 0 0 max_iterations) = max_iterations
  /\ modulus_sq (escape_time 0 0 max_iterations) <= to_uint64 (Z.shiftl 4 FRAC_BITS)
  /\ iter_continues max_iterations (escape_time 0 0 max_iterations) = false
  /\ forall colour_map, pixel_colour 0 0 max_iterations colour_map = Ok 0.
Proof.
  assert (L : forall k : nat, Z.of_nat k <= max_iterations ->
            iter_loop k 0 0 max_iterations iter_init
            = mk_iter_state (Z.of_nat k) 0 0 0).
  { intros k Hk. unfold iter_init.
    rewrite iter_loop_origin by lia. reflexivity. }
  assert (E : escape_time 0 0 max_iterations = mk_iter_state max_iterations 0 0 0).
  { unfold escape_time. rewrite L by lia. f_equal. lia. }
  split; [exact L |]. split; [exact E |].
  split; [rewrite E; reflexivity |].
  split; [rewrite E, escape_threshold; cbn [modulus_sq]; lia |].
  split; [apply escape_time_exits; lia |].
  intros colour_map. unfold pixel_colour. rewrite E. cbn [iterations].
  rewrite Z.ltb_irrefl. reflexivity.
Qed.

Lemma origin_never_escapes_witness :
  escape_time 0 0 50 = mk_iter_state 50 0 0 0
  /\ forall colour_map, pixel_colour 0 0 50 colour_map = Ok 0.
Proof.
  destruct (origin_never_escapes 50 ltac:(unfold INT_MAX; lia))
    as (_ & H1 & _ & _ & _ & H2).
  split; assumption.
Defined.

(** ** Rendering a frame that lies inside the set *)

Lemma fb_set_eq (fb : framebuffer) (y x : Z) (c : colour) (y' x' : Z) :
  fb_set fb y x c y' x' = if (y' =? y) && (x' =? x) then c else fb y' x'.
Proof. reflexivity. Qed.

Lemma draw_columns_S (n : nat) (y x x_fixed y_fixed inc m : Z)
    (colour_map : list colour) (fb : framebuffer) :
  draw_columns (S n) y x x_fixed y_fixed inc m colour_map fb
  = (c <- pixel_colour x_fixed y_fixed m colour_map ;;
     draw_columns n y (x + 1) (to_int32 (x_fixed + inc)) y_fixed inc m colour_map
       (fb_set fb y x c)).
Proof. reflexivity. Qed.

Lemma draw_rows_S (n : nat) (y x_start y_fixed inc m : Z)
    (colour_map : list colour) (fb : framebuffer) :
  draw_rows (S n) y x_start y_fixed inc m colour_map fb
  = (fb' <- draw_columns (Z.to_nat XSIZE) y 0 x_start y_fixed inc m colour_map fb ;;
     draw_rows n (y + 1) x_start (to_int32 (y_fixed - inc)) inc m colour_map fb').
Proof. reflexivity. Qed.

(** Columns [x .. x+n-1] of row [y] come out black, the rest is kept. *)
Lemma draw_columns_interior (y y_fixed inc m : Z) (colour_map : list colour) (n : nat) :
  0 <= m <= INT_MAX -> 0 <= inc ->
  - interior_y <= y_fixed <= interior_y ->
  forall x x_fixed fb,
    - interior_x <= x_fixed -> x_fixed + Z.of_nat n * inc <= interior_x ->
    exists fb',
      draw_columns n y x x_fixed y_fixed inc m colour_map fb = Ok fb'
      /\ forall y' x',
           fb' y' x' = if (y' =? y) && (x <=? x') && (x' <? x + Z.of_nat n)
                       then 0 else fb y' x'.
Proof.
  intros Hm Hinc Hy. induction n as [| n IH]; intros x x_fixed fb Hlo Hhi.
  - exists fb. split; [reflexivity |]. intros y' x'.
    destruct (y' =? y), (Z.leb_spec x x'), (Z.ltb_spec x' (x + Z.of_nat 0));
      simpl; try reflexivity; lia.
  - rewrite draw_columns_S.
    rewrite pixel_colour_interior by (assumption || nia). cbn [bind].
    assert (Hin : is_int32 (x_fixed + inc))
      by (unfold is_int32, INT_MIN, INT_MAX, interior_x in *; nia).
    rewrite (to_int32_id _ Hin).
    destruct (IH (x + 1) (x_fixed + inc) (fb_set fb y x 0)) as (fb' & E & P);
      [lia | nia |].
    exists fb'. split; [exact E |]. intros y' x'. rewrite P, fb_set_eq.
    destruct (Z.eqb_spec y' y), (Z.leb_spec (x + 1) x'),
      (Z.ltb_spec x' (x + 1 + Z.of_nat n)), (Z.leb_spec x x'),
      (Z.ltb_spec x' (x + Z.of_nat (S n))), (Z.eqb_spec x' x);
      simpl; try reflexivity; lia.
Qed.

(** Rows [y .. y+n-1] come out black, the rest is kept. *)
Lemma draw_rows_interior (x_start inc m : Z) (colour_map : list colour) (n : nat) :
  0 <= m <= INT_MAX -> 0 <= inc ->
  - interior_x <= x_start -> x_start + XSIZE * inc <= interior_x ->
  forall y y_fixed fb,
    y_fixed <= interior_y -> - interior_y <= y_fixed - Z.of_nat n * inc ->
    exists fb',
      draw_rows n y x_start y_fixed inc m colour_map fb = Ok fb'
      /\ black_rows fb fb' y (Z.of_nat n).
Proof.
  intros Hm Hinc Hlo Hhi. induction n as [| n IH]; intros y y_fixed fb Hy1 Hy2.
  - exists fb. split; [reflexivity |]. intros y' x'.
    destruct (Z.leb_spec y y'), (Z.ltb_spec y' (y + Z.of_nat 0));
      simpl; try reflexivity; lia.
  - rewrite draw_rows_S.
    destruct (draw_columns_interior y y_fixed inc m colour_map (Z.to_nat XSIZE)
                Hm Hinc ltac:(lia) 0 x_start fb Hlo
                ltac:(rewrite Z2Nat.id by (unfold XSIZE; lia); exact Hhi))
      as (fb1 & E1 & P1).
    rewrite E1. cbn [bind].
    assert (Hin : is_int32 (y_fixed - inc))
      by (unfold is_int32, INT_MIN, INT_MAX, interior_y in *; nia).
    rewrite (to_int32_id _ Hin).
    destruct (IH (y + 1) (y_fixed - inc) fb1) as (fb' & E & P); [lia | nia |].
    exists fb'. split; [exact E |]. intros y' x'. rewrite P, P1.
    rewrite Z2Nat.id by (unfold XSIZE; lia). unfold XSIZE.
    destruct (Z.leb_spec (y + 1) y'), (Z.ltb_spec y' (y + 1 + Z.of_nat n)),
      (Z.leb_spec y y'), (Z.ltb_spec y' (y + Z.of_nat (S n))),
      (Z.eqb_spec y' y), (Z.leb_spec 0 x'), (Z.ltb_spec x' 640),
      (Z.ltb_spec x' (0 + 640));
      simpl; try reflexivity; lia.
Qed.

(** A frame whose sample points all lie in the interior region is black. *)
Lemma drawMandelbrot_interior (x_fixed y_fixed inc m : Z) (fb : framebuffer)
    (colour_map : list colour) :
  0 <= m <= INT_MAX -> 0 <= inc ->
  - interior_x <= x_fixed -> x_fixed + XSIZE * inc <= interior_x ->
  y_fixed <= interior_y -> - interior_y <= y_fixed - YSIZE * inc ->
  exists fb',
    drawMandelbrot x_fixed y_fixed inc m fb colour_map = Ok fb'
    /\ forall y x, 0 <= y < YSIZE -> 0 <= x < XSIZE -> fb' y x = 0.
Proof.
  intros Hm Hinc Hx1 Hx2 Hy1 Hy2. unfold drawMandelbrot.
  destruct (draw_rows_interior x_fixed inc m colour_map (Z.to_nat YSIZE)
              Hm Hinc Hx1 Hx2 0 y_fixed fb Hy1
              ltac:(rewrite Z2Nat.id by (unfold YSIZE; lia); exact Hy2))
    as (fb' & E & P).
  exists fb'. split; [exact E |]. intros y x Hy Hx. rewrite P.
  rewrite Z2Nat.id by (unfold YSIZE; lia).
  destruct (Z.leb_spec 0 y), (Z.ltb_spec y (0 + YSIZE)), (Z.leb_spec 0 x),
    (Z.ltb_spec x XSIZE); simpl; try reflexivity; lia.
Qed.

Lemma bind_Ok {A B : Type} (a : A) (k : A -> result B) : bind (Ok a) k = k a.
Proof. reflexivity. Qed.

Lemma test_center :
  cs_x (center_coords (to_int32 0) (to_int32 0) 5) = -40960000
  /\ cs_y (center_coords (to_int32 0) (to_int32 0) 5) = 30720000
  /\ cs_step (center_coords (to_int32 0) (to_int32 0) 5) = 128000.
Proof. vm_compute. repeat split; reflexivity. Qed.

Lemma main_body_eq (fuel : nat) (center_x center_y zoom max_iterations : Z)
    (pts : list colour) (c1 c2 c3 c4 c5 c6 : colour) :
  pts = [c1; c2; c3; c4; c5; c6] ->
  main_body fuel center_x center_y zoom max_iterations c1 c2 c3 c4 c5 c6
  = (unique_colours <- generate_unique_colours fuel [] pts ;;
     colour_map <-
       generate_colour_map (main_max_iterations max_iterations) unique_colours [] ;;
     drawMandelbrot
       (cs_x (center_coords (to_int32 center_x) (to_int32 center_y) zoom))
       (cs_y (center_coords (to_int32 center_x) (to_int32 center_y) zoom))
       (cs_step (center_coords (to_int32 center_x) (to_int32 center_y) zoom))
       (main_max_iterations max_iterations) (fun _ _ => grey) colour_map).
Proof. intros ->. reflexivity. Qed.

Lemma test_max_iterations : main_max_iterations 50 = 50.
Proof. reflexivity. Qed.

(** The end-to-end scenario renders, and every pixel is black. *)
Lemma test_frame_black (fuel : nat) :
  (63 <= fuel)%nat ->
  exists fb,
    main_body fuel 0 0 5 50 0x0000 0x2104 0x4208 0x630C 0x8410 0xFFFF = Ok fb
    /\ forall y x, 0 <= y < YSIZE -> 0 <= x < XSIZE -> fb y x = 0.
Proof.
  intros Hfuel.
  rewrite (main_body_eq fuel 0 0 5 50 test_anchors) by reflexivity.
  destruct test_center as (Ex & Ey & Estep).
  rewrite test_max_iterations, Ex, Ey, Estep.
  rewrite (generate_unique_colours_paths fuel [] test_anchors eq_refl
             test_anchors_uint16 Hfuel).
  pose proof (unique_colours_size test_anchors eq_refl test_anchors_uint16) as Hs.
  destruct (generate_colour_map_ok 50 ([] ++ concat (anchor_paths test_anchors)) []
              ltac:(lia) ltac:(unfold INT_MAX; cbn [app]; lia)) as (cm & E & _).
  rewrite bind_Ok, E, bind_Ok.
  apply drawMandelbrot_interior;
    unfold INT_MAX, interior_x, interior_y, XSIZE, YSIZE; lia.
Qed.

(** C7.  With center (0,0), zoom 5, 50 iterations and the black-to-white
    anchors, the frame renders; it is symmetric about the horizontal and the
    vertical center of the grid, whether the mirror image of index [i] of
    [n] is taken as [n-1-i] (the middle of the grid) or as [n-i] (the center
    pixel's row 240 and column 320); the center pixel holds the sentinel
    colour 0.  Every sample point of this frame lies inside the set, so
    every pixel of the frame is 0. *)
Theorem frame_symmetric_black_center (fuel : nat) (Hfuel : (63 <= fuel)%nat) :
  exists fb : framebuffer,
    main_body fuel 0 0 5 50 0x0000 0x2104 0x4208 0x630C 0x8410 0xFFFF = Ok fb
    /\ fb 240 320 = 0
    /\ (forall y x, 0 <= y < YSIZE -> 0 <= x < XSIZE ->
          fb y x = fb (YSIZE - 1 - y) x /\ fb y x = fb y (XSIZE - 1 - x))
    /\ (forall y x, 0 < y < YSIZE -> 0 < x < XSIZE ->
          fb y x = fb (YSIZE - y) x /\ fb y x = fb y (XSIZE - x))
    /\ (forall y x, 0 <= y < YSIZE -> 0 <= x < XSIZE -> fb y x = 0).
Proof.
  destruct (test_frame_black fuel Hfuel) as (fb & E & B).
  exists fb. split; [exact E |].
  split; [apply B; unfold YSIZE, XSIZE; lia |].
  split; [| split; [| exact B]].
  - intros y x Hy Hx. rewrite !B by lia. split; reflexivity.
  - intros y x Hy Hx. rewrite !B by lia. split; reflexivity.
Qed.

Lemma frame_symmetric_black_center_witness :
  exists fb : framebuffer,
    main_body 63 0 0 5 50 0x0000 0x2104 0x4208 0x630C 0x8410 0xFFFF = Ok fb
    /\ fb 240 320 = 0.
Proof.
  destruct (frame_symmetric_black_center 63 (le_n 63)) as (fb & H1 & H2 & _).
  exists fb. split; assumption.
Defined.

(** * Further properties of the renderer *)

(** ** The iteration count at an arbitrary sample point *)

Lemma iter_body_iterations (x y : Z) (st : iter_state) :
  0 <= iterations st < INT_MAX ->
  iterations (iter_body x y st) = iterations st + 1.
Proof.
  intros H. unfold iter_body; cbn [iterations].
  apply to_int32_id. unfold is_int32, INT_MIN, INT_MAX in *. lia.
Qed.

Lemma iter_continues_lt (m : Z) (st : iter_state) :
  iter_continues m st = true ->
  modulus_sq st <= 2147483648 /\ iterations st < m.
Proof.
  unfold iter_continues. rewrite escape_threshold. intros H.
  apply andb_prop in H. destruct H as [H1 H2].
  apply Z.leb_le in H1. apply Z.ltb_lt in H2. split; assumption.
Qed.

Lemma iter_continues_intro (m : Z) (st : iter_state) :
  modulus_sq st <= 2147483648 -> iterations st < m ->
  iter_continues m st = true.
Proof.
  unfold iter_continues. rewrite escape_threshold. intros H1 H2.
  apply andb_true_intro. split; [apply Z.leb_le | apply Z.ltb_lt]; assumption.
Qed.

Lemma iter_loop_S (n : nat) (x y m : Z) (st : iter_state) :
  iter_loop (S n) x y m st
  = if iter_continues m st then iter_loop n x y m (iter_body x y st) else st.
Proof. reflexivity. Qed.

(** The count never decreases and never passes the bound. *)
Lemma iter_loop_count (x y m : Z) (n : nat) :
  m <= INT_MAX ->
  forall st, 0 <= iterations st <= m ->
    iterations st <= iterations (iter_loop n x y m st) <= m.
Proof.
  intros Hm. induction n as [| n IH]; intros st Hst.
  - simpl. lia.
  - rewrite iter_loop_S. destruct (iter_continues m st) eqn:C; [| lia].
    apply iter_continues_lt in C. destruct C as [_ C].
    pose proof (iter_body_iterations x y st ltac:(lia)) as E.
    specialize (IH (iter_body x y st) ltac:(lia)). lia.
Qed.

Lemma first_pass_state (x y : Z) :
  iterations (iter_body x y iter_init) = 1
  /\ modulus_sq (iter_body x y iter_init) = 0.
Proof. split; reflexivity. Qed.

(** The first two passes are unconditional: the squared modulus tested
    before a pass is that of [z] one pass earlier. *)
Lemma escape_time_two_passes (x y m : Z) :
  2 <= m ->
  escape_time x y m
  = iter_loop (Z.to_nat m - 2) x y m (iter_body x y (iter_body x y iter_init)).
Proof.
  intros Hm. unfold escape_time.
  replace (Z.to_nat m) with (S (S (Z.to_nat m - 2))) at 1 by lia.
  destruct (first_pass_state x y) as [E1 E2].
  rewrite iter_loop_S, (iter_continues_intro m iter_init) by (simpl; lia).
  rewrite iter_loop_S, (iter_continues_intro m (iter_body x y iter_init))
    by (rewrite ?E1, ?E2; lia).
  reflexivity.
Qed.

Lemma escape_time_one (x y : Z) : iterations (escape_time x y 1) = 1.
Proof. reflexivity. Qed.

Lemma escape_time_count (x y m : Z) :
  1 <= m <= INT_MAX ->
  Z.min 2 m <= iterations (escape_time x y m) <= m.
Proof.
  intros Hm. destruct (Z.eq_dec m 1) as [-> | N].
  - rewrite escape_time_one. lia.
  - rewrite escape_time_two_passes by lia.
    destruct (first_pass_state x y) as [E1 _].
    assert (E2 : iterations (iter_body x y (iter_body x y iter_init)) = 2).
    { rewrite iter_body_iterations; rewrite E1; unfold INT_MAX; lia. }
    pose proof (iter_loop_count x y m (Z.to_nat m - 2) ltac:(lia)
                  (iter_body x y (iter_body x y iter_init)) ltac:(lia)).
    lia.
Qed.

(** X1.  At every sample point and for every [int] bound of at least 1 the
    loop makes at least min(2, bound) passes and at most bound, and ends
    with its guard false. *)
Theorem iterations_bounds (x y max_iterations : Z)
    (Hmax : 1 <= max_iterations <= INT_MAX) :
  Z.min 2 max_iterations <= iterations (escape_time x y max_iterations)
    <= max_iterations
  /\ iter_continues max_iterations (escape_time x y max_iterations) = false.
Proof.
  split; [apply escape_time_count, Hmax | apply escape_time_exits; lia].
Qed.

Lemma iterations_bounds_witness :
  Z.min 2 50 <= iterations (escape_time 123456789 (-987654321) 50) <= 50.
Proof. apply (iterations_bounds 123456789 (-987654321) 50). unfold INT_MAX. lia. Defined.

Lemma fixed_mult_int32_square (a : Z) :
  is_int32 a -> 0 <= fixed_mult a a <= 8589934592.
Proof.
  unfold is_int32, INT_MIN, INT_MAX. intros Ha.
  assert (Hp : 0 <= a * a <= 4611686018427387904) by nia.
  unfold fixed_mult, FRAC_BITS.
  rewrite to_int64_id by (unfold is_int64; lia).
  rewrite Z.shiftr_div_pow2 by lia. change (2 ^ 29) with 536870912.
  Z.div_mod_to_equations. lia.
Qed.

Lemma first_pass (x y : Z) :
  is_int32 x -> is_int32 y ->
  iter_body x y iter_init = mk_iter_state 1 x y 0.
Proof.
  unfold is_int32, INT_MIN, INT_MAX. intros Hx Hy.
  unfold iter_body, iter_init; cbn [iterations zr zi modulus_sq].
  change (fixed_mult 0 0) with 0. change (Z.shiftl 0 1) with 0.
  change (to_int64 (0 - 0)) with 0. change (to_int64 0) with 0.
  change (to_int64 (0 + 0)) with 0. change (to_uint64 0) with 0.
  change (to_int32 (0 + 1)) with 1.
  rewrite (to_int64_id (0 + x)), (to_int64_id (0 + y)) by (unfold is_int64; lia).
  reflexivity.
Qed.

(** After the second pass the squared modulus is that of the sample point. *)
Lemma second_pass_modulus (x y : Z) :
  is_int32 x -> is_int32 y ->
  iterations (iter_body x y (iter_body x y iter_init)) = 2
  /\ modulus_sq (iter_body x y (iter_body x y iter_init))
     = fixed_mult x x + fixed_mult y y.
Proof.
  intros Hx Hy. rewrite (first_pass x y Hx Hy).
  pose proof (fixed_mult_int32_square x Hx).
  pose proof (fixed_mult_int32_square y Hy).
  unfold iter_body at 1 2; cbn [iterations zr zi modulus_sq].
  split; [reflexivity |].
  rewrite to_int64_id by (unfold is_int64; lia).
  apply to_uint64_id. lia.
Qed.

(** X2.  A sample point whose own squared modulus exceeds 4.0 leaves the
    loop after exactly two passes, and any other point makes at least three
    (bound permitting): no pixel ever has a count of 1. *)
Theorem escape_after_two_passes (x y max_iterations : Z)
    (Hx : is_int32 x) (Hy : is_int32 y) (Hmax : 3 <= max_iterations <= INT_MAX) :
  (to_uint64 (Z.shiftl 4 FRAC_BITS) < fixed_mult x x + fixed_mult y y ->
   iterations (escape_time x y max_iterations) = 2)
  /\ (fixed_mult x x + fixed_mult y y <= to_uint64 (Z.shiftl 4 FRAC_BITS) ->
      3 <= iterations (escape_time x y max_iterations)).
Proof.
  rewrite escape_threshold, escape_time_two_passes by lia.
  destruct (second_pass_modulus x y Hx Hy) as [E1 E2].
  set (st2 := iter_body x y (iter_body x y iter_init)) in *.
  replace (Z.to_nat max_iterations - 2)%nat
    with (S (Z.to_nat max_iterations - 3)) by lia.
  rewrite iter_loop_S. split; intros H.
  - assert (C : iter_continues max_iterations st2 = false).
    { destruct (iter_continues max_iterations st2) eqn:C; [| reflexivity].
      apply iter_continues_lt in C. lia. }
    rewrite C. exact E1.
  - rewrite (iter_continues_intro max_iterations st2) by lia.
    pose proof (iter_body_iterations x y st2 ltac:(unfold INT_MAX in *; lia)) as E3.
    pose proof (iter_loop_count x y max_iterations (Z.to_nat max_iterations - 3)
                  ltac:(lia) (iter_body x y st2) ltac:(lia)).
    lia.
Qed.

Lemma escape_after_two_passes_witness :
  iterations (escape_time 1073741824 1073741824 50) = 2.
Proof.
  apply (escape_after_two_passes 1073741824 1073741824 50);
    unfold is_int32, INT_MIN, INT_MAX; try lia.
  vm_compute. reflexivity.
Defined.

(** A count below the bound does not depend on the bound or on spare
    passes. *)
Lemma iter_loop_stable (x y m m' : Z) (n : nat) :
  m <= m' <= INT_MAX ->
  forall (st : iter_state) (n' : nat),
    0 <= iterations st -> m <= iterations st + Z.of_nat n -> (n <= n')%nat ->
    iterations (iter_loop n x y m st) < m ->
    iter_loop n' x y m' st = iter_loop n x y m st.
Proof.
  intros Hm. induction n as [| n IH]; intros st n' H0 Hfuel Hn Hlt.
  - simpl in Hlt. lia.
  - rewrite iter_loop_S in *. destruct (iter_continues m st) eqn:C.
    + apply iter_continues_lt in C. destruct C as [C1 C2].
      destruct n' as [| n']; [lia |].
      rewrite iter_loop_S, (iter_continues_intro m' st) by lia.
      pose proof (iter_body_iterations x y st ltac:(lia)) as E.
      apply IH; lia || assumption.
    + assert (C' : iter_continues m' st = false).
      { destruct (iter_continues m' st) eqn:C'; [| reflexivity].
        apply iter_continues_lt in C'.
        rewrite (iter_continues_intro m st) in C by lia. discriminate. }
      destruct n' as [| n']; [reflexivity |].
      rewrite iter_loop_S, C'. reflexivity.
Qed.

(** X3.  A point that escaped within [m] passes ends in the same state, with
    the same count, under every larger bound. *)
Theorem escape_time_stable (x y m m' : Z)
    (Hm : 0 <= m <= m') (Hm' : m' <= INT_MAX)
    (Hesc : iterations (escape_time x y m) < m) :
  escape_time x y m' = escape_time x y m.
Proof.
  unfold escape_time in *.
  apply iter_loop_stable; simpl; lia || assumption.
Qed.

Lemma escape_time_stable_witness :
  escape_time 1073741824 1073741824 1023 = escape_time 1073741824 1073741824 3.
Proof.
  apply (escape_time_stable 1073741824 1073741824 3 1023); unfold INT_MAX; try lia.
  vm_compute. reflexivity.
Defined.

(** ** Colour lookup of a pixel *)

Lemma spread_factor_positive (m : Z) :
  16 <= m <= 1023 -> 1 <= spread_factor m <= 63.
Proof.
  intros Hm. rewrite spread_factor_eq by (unfold INT_MAX; lia).
  Z.div_mod_to_equations. lia.
Qed.

Lemma spread_index_value (m i : Z) :
  1 <= m <= 1023 -> 0 <= i < m ->
  get_spread_colour_index i m
  = if m <? 16 then i else Z.min (i * spread_factor m) (m - 1).
Proof.
  intros Hm Hi. unfold get_spread_colour_index.
  destruct (Z.ltb_spec m 16) as [Hlt | Hge]; [reflexivity |].
  pose proof (spread_factor_positive m ltac:(lia)) as Hf.
  assert (0 <= i * spread_factor m <= 1023 * 63) by nia.
  rewrite (to_int32_id (i * spread_factor m))
    by (unfold is_int32, INT_MIN, INT_MAX; lia).
  rewrite (to_int32_id (m - 1)) by (unfold is_int32, INT_MIN, INT_MAX; lia).
  destruct (Z.ltb_spec (i * spread_factor m) m); lia.
Qed.

Lemma spread_index_escaped (m i : Z) :
  1 <= m <= 1023 -> 2 <= i < m ->
  2 <= get_spread_colour_index i m <= m - 1.
Proof.
  intros Hm Hi. rewrite spread_index_value by lia.
  destruct (Z.ltb_spec m 16) as [Hlt | Hge]; [lia |].
  pose proof (spread_factor_positive m ltac:(lia)) as Hf.
  assert (2 <= i * spread_factor m) by nia. lia.
Qed.

(** With a colour map of [max_iterations] entries the lookup of a pixel is
    always in range. *)
Lemma pixel_colour_lookup (x y m : Z) (colour_map : list colour) :
  1 <= m <= 1023 -> size colour_map = m ->
  exists c,
    pixel_colour x y m colour_map = Ok c
    /\ (iterations (escape_time x y m) = m /\ c = 0
        \/ iterations (escape_time x y m) < m
           /\ 2 <= get_spread_colour_index (iterations (escape_time x y m)) m <= m - 1
           /\ at_ colour_map (get_spread_colour_index (iterations (escape_time x y m)) m)
              = Ok c).
Proof.
  intros Hm Hsize. unfold pixel_colour.
  pose proof (escape_time_count x y m ltac:(unfold INT_MAX; lia)) as Hc.
  destruct (Z.ltb_spec (iterations (escape_time x y m)) m) as [Hlt | Hge].
  - pose proof (spread_index_escaped m (iterations (escape_time x y m))
                  Hm ltac:(lia)) as Hk.
    destruct (at_in_range colour_map
                (get_spread_colour_index (iterations (escape_time x y m)) m)
                ltac:(lia)) as [c Ec].
    exists c. split; [exact Ec |]. right. repeat split; (lia || exact Ec).
  - exists 0. split; [reflexivity |]. left. split; [lia | reflexivity].
Qed.

Lemma at_In {A : Type} (v : list A) (i : Z) (a : A) : at_ v i = Ok a -> In a v.
Proof.
  unfold at_. destruct ((0 <=? i) && (i <? Z.of_nat (length v))); [| discriminate].
  destruct (nth_error v (Z.to_nat i)) eqn:E; [| discriminate].
  intros H. injection H as <-. eapply nth_error_In, E.
Qed.

(** X4.  Given a colour map with one entry per iteration, the colour of a
    pixel never fails to be found: a point that reaches the bound is drawn
    in colour 0, and a point that escapes takes the colour-map entry at its
    spread index, which lies between 2 and [max_iterations - 1]; entries 0
    and 1 of the colour map are never displayed. *)
Theorem pixel_colour_total (x y max_iterations : Z) (colour_map : list colour)
    (Hmax : 1 <= max_iterations <= 1023) (Hsize : size colour_map = max_iterations) :
  exists c,
    pixel_colour x y max_iterations colour_map = Ok c
    /\ (c = 0 \/ In c colour_map)
    /\ (iterations (escape_time x y max_iterations) = max_iterations -> c = 0)
    /\ (iterations (escape_time x y max_iterations) < max_iterations ->
        exists k, 2 <= k <= max_iterations - 1
                  /\ k = get_spread_colour_index
                           (iterations (escape_time x y max_iterations)) max_iterations
                  /\ at_ colour_map k = Ok c).
Proof.
  destruct (pixel_colour_lookup x y max_iterations colour_map Hmax Hsize)
    as (c & E & [[H1 H2] | (H1 & H2 & H3)]); exists c.
  - split; [exact E |]. split; [left; exact H2 |].
    split; [intros _; exact H2 | lia].
  - split; [exact E |]. split; [right; eapply at_In, H3 |].
    split; [lia |]. intros _. eexists. split; [exact H2 |].
    split; [reflexivity | exact H3].
Qed.

Lemma pixel_colour_total_witness :
  exists c, pixel_colour 1073741824 1073741824 3 [7; 8; 9] = Ok c.
Proof.
  destruct (pixel_colour_total 1073741824 1073741824 3 [7; 8; 9] ltac:(lia) eq_refl)
    as (c & H & _).
  exists c. exact H.
Defined.

(** ** The frame as a function of the sample points *)

Lemma to_int32_add_l (a b : Z) : to_int32 (to_int32 a + b) = to_int32 (a + b).
Proof.
  unfold to_int32, wrap_signed. f_equal.
  replace ((a + 2 ^ (32 - 1)) mod 2 ^ 32 - 2 ^ (32 - 1) + b + 2 ^ (32 - 1))
    with ((a + 2 ^ (32 - 1)) mod 2 ^ 32 + b) by ring.
  rewrite Zplus_mod_idemp_l. f_equal. ring.
Qed.

Lemma to_int32_sub_l (a b : Z) : to_int32 (to_int32 a - b) = to_int32 (a - b).
Proof. unfold Z.sub. apply to_int32_add_l. Qed.

Section Frame.

Variables (m : Z) (colour_map : list colour).
Hypothesis Hm : 1 <= m <= 1023.
Hypothesis Hsize : size colour_map = m.

(** Columns [x .. x+n-1] of row [y] take the colours of their sample
    points; nothing else is written. *)
Lemma draw_columns_spec (y y_fixed inc : Z) (n : nat) :
  forall x x_fixed fb,
    is_int32 x_fixed ->
    exists fb',
      draw_columns n y x x_fixed y_fixed inc m colour_map fb = Ok fb'
      /\ forall y' x',
           (y' = y /\ x <= x' < x + Z.of_nat n ->
            pixel_colour (to_int32 (x_fixed + (x' - x) * inc)) y_fixed m colour_map
            = Ok (fb' y' x'))
           /\ (~ (y' = y /\ x <= x' < x + Z.of_nat n) -> fb' y' x' = fb y' x').
Proof.
  induction n as [| n IH]; intros x x_fixed fb Hx.
  - exists fb. split; [reflexivity |]. intros y' x'. split; [lia | reflexivity].
  - rewrite draw_columns_S.
    destruct (pixel_colour_lookup x_fixed y_fixed m colour_map Hm Hsize)
      as (c & Ec & _).
    rewrite Ec, bind_Ok.
    destruct (IH (x + 1) (to_int32 (x_fixed + inc)) (fb_set fb y x c)
                (to_int32_range _)) as (fb' & E & P).
    exists fb'. split; [exact E |]. intros y' x'.
    destruct (P y' x') as [P1 P2]. split.
    + intros [-> Hx']. destruct (Z.eq_dec x' x) as [-> | N].
      * rewrite P2 by lia. rewrite fb_set_eq, !Z.eqb_refl. simpl.
        replace (x_fixed + (x - x) * inc) with x_fixed by ring.
        rewrite to_int32_id by exact Hx. exact Ec.
      * rewrite <- P1 by lia. rewrite to_int32_add_l. do 2 f_equal. ring.
    + intros Hout. rewrite P2 by lia. rewrite fb_set_eq.
      destruct (Z.eqb_spec y' y), (Z.eqb_spec x' x); simpl; try reflexivity. lia.
Qed.

(** Rows [y .. y+n-1] take the colours of their sample points; nothing
    else is written. *)
Lemma draw_rows_spec (x_start inc : Z) (n : nat) :
  is_int32 x_start ->
  forall y y_fixed fb,
    is_int32 y_fixed ->
    exists fb',
      draw_rows n y x_start y_fixed inc m colour_map fb = Ok fb'
      /\ forall y' x',
           (y <= y' < y + Z.of_nat n /\ 0 <= x' < XSIZE ->
            pixel_colour (sample_x x_start inc x')
              (to_int32 (y_fixed - (y' - y) * inc)) m colour_map
            = Ok (fb' y' x'))
           /\ (~ (y <= y' < y + Z.of_nat n /\ 0 <= x' < XSIZE) ->
               fb' y' x' = fb y' x').
Proof.
  intros Hxs. induction n as [| n IH]; intros y y_fixed fb Hy.
  - exists fb. split; [reflexivity |]. intros y' x'. split; [lia | reflexivity].
  - rewrite draw_rows_S.
    destruct (draw_columns_spec y y_fixed inc (Z.to_nat XSIZE) 0 x_start fb Hxs)
      as (fb1 & E1 & P1).
    rewrite E1, bind_Ok.
    destruct (IH (y + 1) (to_int32 (y_fixed - inc)) fb1 (to_int32_range _))
      as (fb' & E & P).
    exists fb'. split; [exact E |]. intros y' x'.
    destruct (P y' x') as [Q1 Q2]. destruct (P1 y' x') as [R1 R2].
    rewrite Z2Nat.id in R1, R2 by (unfold XSIZE; lia).
    split.
    + intros [Hy' Hx']. destruct (Z.eq_dec y' y) as [-> | N].
      * rewrite Q2 by lia. rewrite <- R1 by lia.
        unfold sample_x. replace (y_fixed - (y - y) * inc) with y_fixed by ring.
        rewrite (to_int32_id y_fixed) by exact Hy.
        do 3 f_equal. ring.
      * rewrite <- Q1 by lia. rewrite to_int32_sub_l.
        do 2 f_equal. ring.
    + intros Hout. rewrite Q2 by lia. apply R2. lia.
Qed.

Lemma drawMandelbrot_spec (x_fixed y_fixed inc : Z) (fb : framebuffer) :
  is_int32 x_fixed -> is_int32 y_fixed ->
  exists fb',
    drawMandelbrot x_fixed y_fixed inc m fb colour_map = Ok fb'
    /\ (forall y x, in_grid y x ->
          pixel_colour (sample_x x_fixed inc x) (sample_y y_fixed inc y) m colour_map
          = Ok (fb' y x))
    /\ (forall y x, ~ in_grid y x -> fb' y x = fb y x).
Proof.
  intros Hx Hy. unfold drawMandelbrot.
  destruct (draw_rows_spec x_fixed inc (Z.to_nat YSIZE) Hx 0 y_fixed fb Hy)
    as (fb' & E & P).
  exists fb'. split; [exact E |]. unfold in_grid. split.
  - intros y x Hg. destruct (P y x) as [P1 _].
    rewrite Z2Nat.id in P1 by (unfold YSIZE; lia).
    rewrite <- P1 by lia. unfold sample_y. do 3 f_equal. ring.
  - intros y x Hg. destruct (P y x) as [_ P2].
    rewrite Z2Nat.id in P2 by (unfold YSIZE; lia). apply P2. lia.
Qed.

End Frame.

(** X5.  With a colour map of [max_iterations] entries (at most 1023) the
    renderer never fails.  Every pixel of the 640x480 grid receives the
    colour of its own sample point, [x_fixed + x*inc] and [y_fixed - y*inc]
    in 32-bit arithmetic, independently of all other pixels, and nothing
    outside the grid is written. *)
Theorem drawMandelbrot_pointwise (x_fixed y_fixed inc max_iterations : Z)
    (fb : framebuffer) (colour_map : list colour)
    (Hmax : 1 <= max_iterations <= 1023) (Hsize : size colour_map = max_iterations)
    (Hx : is_int32 x_fixed) (Hy : is_int32 y_fixed) :
  exists fb',
    drawMandelbrot x_fixed y_fixed inc max_iterations fb colour_map = Ok fb'
    /\ (forall y x, in_grid y x ->
          pixel_colour (sample_x x_fixed inc x) (sample_y y_fixed inc y)
            max_iterations colour_map
          = Ok (fb' y x))
    /\ (forall y x, ~ in_grid y x -> fb' y x = fb y x).
Proof. apply drawMandelbrot_spec; assumption. Qed.

Lemma drawMandelbrot_pointwise_witness :
  exists fb',
    drawMandelbrot (-1073741824) 536870912 4096000 3 (fun _ _ => grey) [7; 8; 9]
    = Ok fb'.
Proof.
  destruct (drawMandelbrot_pointwise (-1073741824) 536870912 4096000 3
              (fun _ _ => grey) [7; 8; 9] ltac:(lia) eq_refl
              ltac:(unfold is_int32, INT_MIN, INT_MAX; lia)
              ltac:(unfold is_int32, INT_MIN, INT_MAX; lia)) as (fb' & E & _).
  exists fb'. exact E.
Defined.

(** ** A whole test case *)

Lemma read_all_In (v : list colour) (indices : list Z) :
  forall acc r, read_all v indices acc = Ok r ->
    forall c, In c r -> In c acc \/ In c v.
Proof.
  induction indices as [| i rest IH]; intros acc r H c Hc; simpl in H.
  - injection H as <-. left. exact Hc.
  - destruct (at_ v i) as [a | e] eqn:E; simpl in H; [| discriminate].
    destruct (IH _ _ H c Hc) as [Hin | Hin]; [| right; exact Hin].
    apply in_app_or in Hin. destruct Hin as [Hin | [<- | []]].
    + left. exact Hin.
    + right. eapply at_In, E.
Qed.

Lemma generate_colour_map_In (m : Z) (u cm r : list colour) :
  generate_colour_map m u cm = Ok r -> forall c, In c r -> In c cm \/ In c u.
Proof. rewrite generate_colour_map_reads. apply read_all_In. Qed.

Lemma center_sample (cx cy zoom : Z) :
  sample_x (cs_x (center_coords cx cy zoom)) (cs_step (center_coords cx cy zoom)) 320
  = to_int32 cx
  /\ sample_y (cs_y (center_coords cx cy zoom)) (cs_step (center_coords cx cy zoom)) 240
     = to_int32 cy.
Proof.
  destruct (center_top_left cx cy zoom) as [Ex Ey].
  unfold sample_x, sample_y. rewrite Ex, Ey.
  rewrite to_int32_add_l, to_int32_sub_l. split; f_equal; ring.
Qed.

Lemma to_int32_idem (z : Z) : to_int32 (to_int32 z) = to_int32 z.
Proof. apply to_int32_id, to_int32_range. Qed.

(** The frame of a test case, pixel by pixel. *)
Lemma main_body_frame (fuel : nat) (cx cy zoom m : Z) (c1 c2 c3 c4 c5 c6 : colour) :
  Forall is_uint16 [c1; c2; c3; c4; c5; c6] -> (63 <= fuel)%nat ->
  exists (fb : framebuffer) (u cm : list colour),
    generate_unique_colours fuel [] [c1; c2; c3; c4; c5; c6] = Ok u
    /\ generate_colour_map (main_max_iterations m) u [] = Ok cm
    /\ size cm = main_max_iterations m
    /\ main_body fuel cx cy zoom m c1 c2 c3 c4 c5 c6 = Ok fb
    /\ (forall y x, in_grid y x ->
          pixel_colour
            (sample_x (cs_x (center_coords (to_int32 cx) (to_int32 cy) zoom))
               (cs_step (center_coords (to_int32 cx) (to_int32 cy) zoom)) x)
            (sample_y (cs_y (center_coords (to_int32 cx) (to_int32 cy) zoom))
               (cs_step (center_coords (to_int32 cx) (to_int32 cy) zoom)) y)
            (main_max_iterations m) cm
          = Ok (fb y x))
    /\ (forall y x, ~ in_grid y x -> fb y x = grey).
Proof.
  intros Hcol Hfuel.
  set (pts := [c1; c2; c3; c4; c5; c6]) in *.
  pose proof (main_max_iterations_range m) as HM.
  pose proof (unique_colours_size pts eq_refl Hcol) as Hs.
  pose proof (generate_unique_colours_paths fuel [] pts eq_refl Hcol Hfuel) as Eu.
  cbn [app] in Eu.
  destruct (generate_colour_map_ok (main_max_iterations m)
              (concat (anchor_paths pts)) [] HM ltac:(unfold INT_MAX; lia))
    as (cm & Ecm & Hsize).
  cbn [app] in Ecm.
  destruct (drawMandelbrot_spec (main_max_iterations m) cm HM Hsize
              (cs_x (center_coords (to_int32 cx) (to_int32 cy) zoom))
              (cs_y (center_coords (to_int32 cx) (to_int32 cy) zoom))
              (cs_step (center_coords (to_int32 cx) (to_int32 cy) zoom))
              (fun _ _ => grey))
    as (fb & Efb & P1 & P2).
  { destruct (center_top_left (to_int32 cx) (to_int32 cy) zoom) as [-> _].
    apply to_int32_range. }
  { destruct (center_top_left (to_int32 cx) (to_int32 cy) zoom) as [_ ->].
    apply to_int32_range. }
  exists fb, (concat (anchor_paths pts)), cm.
  split; [exact Eu |]. split; [exact Ecm |]. split; [exact Hsize |].
  split; [| split; [exact P1 | exact P2]].
  rewrite (main_body_eq fuel cx cy zoom m pts) by reflexivity.
  rewrite Eu, bind_Ok, Ecm, bind_Ok. exact Efb.
Qed.

(** X6.  A test case with six 16-bit anchor colours always renders, whatever
    its center, zoom and [max_iterations]: no read is out of range anywhere
    in the pipeline.  Every pixel of the grid is either the sentinel 0 or
    one of the unique colours on the anchors' path, so no pixel keeps the
    grey the frame buffer was cleared to unless grey is such a colour. *)
Theorem main_body_total (fuel : nat) (cx cy zoom m : Z) (c1 c2 c3 c4 c5 c6 : colour)
    (Hcol : Forall is_uint16 [c1; c2; c3; c4; c5; c6]) (Hfuel : (63 <= fuel)%nat) :
  exists (fb : framebuffer) (u : list colour),
    generate_unique_colours fuel [] [c1; c2; c3; c4; c5; c6] = Ok u
    /\ main_body fuel cx cy zoom m c1 c2 c3 c4 c5 c6 = Ok fb
    /\ (forall y x, in_grid y x -> fb y x = 0 \/ In (fb y x) u)
    /\ (forall y x, ~ in_grid y x -> fb y x = grey).
Proof.
  destruct (main_body_frame fuel cx cy zoom m c1 c2 c3 c4 c5 c6 Hcol Hfuel)
    as (fb & u & cm & Eu & Ecm & Hsize & Efb & P1 & P2).
  exists fb, u. split; [exact Eu |]. split; [exact Efb |]. split; [| exact P2].
  intros y x Hg. specialize (P1 y x Hg).
  unfold pixel_colour in P1.
  match type of P1 with
  | (if ?b then _ else _) = _ => destruct b
  end.
  - right. apply at_In in P1.
    destruct (generate_colour_map_In _ _ _ _ Ecm _ P1) as [[] | H]. exact H.
  - left. injection P1 as <-. reflexivity.
Qed.

Lemma main_body_total_witness :
  exists fb : framebuffer,
    main_body 63 (-1073741824) 0 0 2000 0x0000 0x2104 0x4208 0x630C 0x8410 0xFFFF
    = Ok fb.
Proof.
  destruct (main_body_total 63 (-1073741824) 0 0 2000
              0x0000 0x2104 0x4208 0x630C 0x8410 0xFFFF
              test_anchors_uint16 (le_n 63)) as (fb & u & _ & E & _).
  exists fb. exact E.
Defined.

(** X7.  Whatever the center and the zoom, also when the top-left point
    wrapped around, the pixel at row 240 and column 320 samples the center
    point of the test case itself: in the frame of the test case it holds
    the colour that point gets under the colour map the test case built
    from its own anchors. *)
Theorem center_pixel_is_center (fuel : nat) (cx cy zoom m : Z)
    (c1 c2 c3 c4 c5 c6 : colour)
    (Hcol : Forall is_uint16 [c1; c2; c3; c4; c5; c6]) (Hfuel : (63 <= fuel)%nat) :
  sample_x (cs_x (center_coords (to_int32 cx) (to_int32 cy) zoom))
    (cs_step (center_coords (to_int32 cx) (to_int32 cy) zoom)) 320 = to_int32 cx
  /\ sample_y (cs_y (center_coords (to_int32 cx) (to_int32 cy) zoom))
       (cs_step (center_coords (to_int32 cx) (to_int32 cy) zoom)) 240 = to_int32 cy
  /\ exists (fb : framebuffer) (u cm : list colour),
       generate_unique_colours fuel [] [c1; c2; c3; c4; c5; c6] = Ok u
       /\ generate_colour_map (main_max_iterations m) u [] = Ok cm
       /\ main_body fuel cx cy zoom m c1 c2 c3 c4 c5 c6 = Ok fb
       /\ pixel_colour (to_int32 cx) (to_int32 cy) (main_max_iterations m) cm
          = Ok (fb 240 320).
Proof.
  destruct (center_sample (to_int32 cx) (to_int32 cy) zoom) as [Sx Sy].
  rewrite to_int32_idem in Sx, Sy.
  split; [exact Sx |]. split; [exact Sy |].
  destruct (main_body_frame fuel cx cy zoom m c1 c2 c3 c4 c5 c6 Hcol Hfuel)
    as (fb & u & cm & Eu & Ecm & _ & Efb & P1 & _).
  exists fb, u, cm.
  split; [exact Eu |]. split; [exact Ecm |]. split; [exact Efb |].
  rewrite <- (P1 240 320) by (unfold in_grid, YSIZE, XSIZE; lia).
  rewrite Sx, Sy. reflexivity.
Qed.

Lemma center_pixel_is_center_witness :
  exists (fb : framebuffer) (u cm : list colour),
    generate_unique_colours 63 [] [0x0000; 0x2104; 0x4208; 0x630C; 0x8410; 0xFFFF]
    = Ok u
    /\ generate_colour_map (main_max_iterations 50) u [] = Ok cm
    /\ main_body 63 1073741824 1073741824 0 50
         0x0000 0x2104 0x4208 0x630C 0x8410 0xFFFF = Ok fb
    /\ pixel_colour (to_int32 1073741824) (to_int32 1073741824)
         (main_max_iterations 50) cm = Ok (fb 240 320).
Proof.
  destruct (center_pixel_is_center 63 1073741824 1073741824 0 50
              0x0000 0x2104 0x4208 0x630C 0x8410 0xFFFF test_anchors_uint16 (le_n 63))
    as (_ & _ & fb & u & cm & H1 & H2 & H3 & H4).
  exists fb, u, cm.
  exact (conj H1 (conj H2 (conj H3 H4))).
Defined.

(** ** The colour map as a resampling *)

Lemma at_nth (v : list colour) (i : Z) :
  0 <= i < size v -> at_ v i = Ok (nth (Z.to_nat i) v 0).
Proof.
  intros Hi. destruct (at_in_range v i Hi) as [a Ha]. rewrite Ha. f_equal.
  unfold at_ in Ha.
  destruct ((0 <=? i) && (i <? Z.of_nat (length v))); [| discriminate].
  destruct (nth_error v (Z.to_nat i)) eqn:E; [| discriminate].
  injection Ha as <-. symmetry. apply nth_error_nth, E.
Qed.

Lemma read_all_map (v : list colour) (indices : list Z) :
  Forall (fun i => 0 <= i < size v) indices ->
  forall acc,
    read_all v indices acc = Ok (acc ++ map (fun i => nth (Z.to_nat i) v 0) indices).
Proof.
  induction 1 as [| i rest Hi _ IH]; intros acc; simpl.
  - rewrite app_nil_r. reflexivity.
  - rewrite (at_nth v i Hi), bind_Ok, IH, <- app_assoc. reflexivity.
Qed.

Lemma downsample_reads_nth (U : Z) (n : nat) :
  forall step idx,
    1 <= step -> 0 <= idx -> idx + Z.of_nat n * step <= U -> U <= INT_MAX ->
    forall j : nat, (j < n)%nat ->
      nth j (downsample_reads n step idx) 0 = idx + Z.of_nat j * step.
Proof.
  induction n as [| n IH]; intros step idx Hs Hi Hb HU j Hj; [lia |].
  simpl downsample_reads. destruct j as [| j]; [simpl; lia |].
  cbn [nth].
  rewrite to_int32_id by (unfold is_int32, INT_MIN, INT_MAX in *; nia).
  rewrite IH by (lia || nia). lia.
Qed.

Lemma div_between (s q i : Z) : 1 <= s -> s * q <= i < s * q + s -> i / s = q.
Proof.
  intros Hs Hi. symmetry. apply (Z.div_unique i s q (i - s * q)); lia.
Qed.

Lemma upsample_reads_nth (U : Z) (n : nat) :
  forall i step idx,
    1 <= step -> 0 <= idx -> step * idx <= i < step * idx + step ->
    i + Z.of_nat n <= step * U -> U <= INT_MAX ->
    forall j : nat, (j < n)%nat ->
      nth j (upsample_reads n i step idx) 0 = (i + Z.of_nat j) / step.
Proof.
  induction n as [| n IH]; intros i step idx Hs Hidx Hinv Hb HU j Hj; [lia |].
  simpl upsample_reads. destruct j as [| j].
  - simpl. rewrite Z.add_0_r. symmetry. apply div_between; assumption.
  - cbn [nth]. assert (Hlt : idx < U) by nia.
    replace (i + Z.of_nat (S j)) with (i + 1 + Z.of_nat j) by lia.
    rewrite Z.rem_mod_nonneg by lia.
    destruct (Z.eqb_spec ((i + 1) mod step) 0) as [E | E].
    + rewrite to_int32_id by (unfold is_int32, INT_MIN, INT_MAX in *; lia).
      apply Z.mod_divide in E; [| lia]. destruct E as [k Ek].
      assert (k = idx + 1) by nia.
      apply IH; (lia || nia).
    + assert (i + 1 <> step * (idx + 1)).
      { intros C. apply E. rewrite C, Z.mul_comm. apply Z.mod_mul. lia. }
      apply IH; (lia || nia).
Qed.

Lemma colour_map_reads_nth (m U : Z) (j : nat) :
  1 <= m <= 1023 -> 1 <= U <= INT_MAX -> (j < Z.to_nat m)%nat ->
  nth j (colour_map_reads m U) 0 = colour_map_index m U (Z.of_nat j).
Proof.
  intros Hm HU Hj. unfold colour_map_reads, colour_map_index.
  rewrite (to_uint64_id m) by lia. rewrite Z.gtb_ltb.
  destruct (Z.ltb_spec m U) as [Hlt | Hge].
  - destruct (downsample_step_size_eq m U ltac:(lia) ltac:(lia)) as (E & H1 & H2).
    rewrite E.
    rewrite (downsample_reads_nth U) by (lia || (rewrite Z2Nat.id by lia; lia)).
    lia.
  - rewrite upsample_step_size_eq by lia.
    destruct (ceil_stride_bounds m U ltac:(lia)) as (H1 & H2 & H3).
    rewrite (upsample_reads_nth U) by (lia || (rewrite Z2Nat.id by lia; lia)).
    reflexivity.
Qed.

Lemma colour_map_index_range (m U j : Z) :
  1 <= m -> 1 <= U -> 0 <= j < m -> 0 <= colour_map_index m U j < U.
Proof.
  intros Hm HU Hj. unfold colour_map_index.
  destruct (Z.ltb_spec m U) as [Hlt | Hge].
  - unfold floor_stride. pose proof (Z.div_mod U m ltac:(lia)).
    pose proof (Z.mod_pos_bound U m ltac:(lia)).
    assert (1 <= U / m) by nia. nia.
  - destruct (ceil_stride_bounds m U ltac:(lia)) as (H1 & H2 & H3).
    split; [apply Z.div_pos; lia | apply Z.div_lt_upper_bound; nia].
Qed.

Lemma colour_map_index_mono (m U j j' : Z) :
  1 <= m -> 1 <= U -> 0 <= j <= j' ->
  colour_map_index m U j <= colour_map_index m U j'.
Proof.
  intros Hm HU Hj. unfold colour_map_index.
  destruct (Z.ltb_spec m U) as [Hlt | Hge].
  - unfold floor_stride. assert (0 <= U / m) by (apply Z.div_pos; lia). nia.
  - destruct (ceil_stride_bounds m U ltac:(lia)) as (H1 & _).
    apply Z.div_le_mono; lia.
Qed.

(** X8.  The colour map of a non-empty vector is a resampling in order:
    entry [j] is the unique colour at index [j * floor(U/M)] when the [U]
    unique colours outnumber the [M] iterations and at index
    [floor(j / ceil(M/U))] otherwise.  The index is in range, starts at 0
    and never decreases, and the colours already in the map are kept in
    front. *)
Theorem colour_map_resampling (max_iterations : Z) (unique_colours colour_map : list colour)
    (Hmax : 1 <= max_iterations <= 1023)
    (Hsize : 1 <= size unique_colours <= INT_MAX) :
  exists cs : list colour,
    generate_colour_map max_iterations unique_colours colour_map = Ok (colour_map ++ cs)
    /\ size cs = max_iterations
    /\ colour_map_index max_iterations (size unique_colours) 0 = 0
    /\ (forall j, 0 <= j < max_iterations ->
          0 <= colour_map_index max_iterations (size unique_colours) j
            < size unique_colours
          /\ nth (Z.to_nat j) cs 0
             = nth (Z.to_nat (colour_map_index max_iterations (size unique_colours) j))
                 unique_colours 0)
    /\ (forall j j', 0 <= j <= j' ->
          colour_map_index max_iterations (size unique_colours) j
          <= colour_map_index max_iterations (size unique_colours) j').
Proof.
  set (U := size unique_colours) in *.
  set (reads := colour_map_reads max_iterations U).
  exists (map (fun i => nth (Z.to_nat i) unique_colours 0) reads).
  split.
  { rewrite generate_colour_map_reads. apply read_all_map.
    apply colour_map_reads_range; assumption. }
  split.
  { unfold size, reads. rewrite length_map, colour_map_reads_length. lia. }
  split.
  { unfold colour_map_index. destruct (max_iterations <? U); reflexivity. }
  split.
  - intros j Hj. split; [apply colour_map_index_range; lia |].
    assert (Hlen : (Z.to_nat j < length reads)%nat).
    { unfold reads. rewrite colour_map_reads_length. lia. }
    rewrite nth_indep with (d' := (fun i => nth (Z.to_nat i) unique_colours 0) 0)
      by (rewrite length_map; exact Hlen).
    rewrite (map_nth (fun i => nth (Z.to_nat i) unique_colours 0)).
    unfold reads. rewrite colour_map_reads_nth by lia.
    rewrite Z2Nat.id by lia. reflexivity.
  - intros j j' Hj. apply colour_map_index_mono; lia.
Qed.

Lemma colour_map_resampling_witness :
  exists cs : list colour,
    generate_colour_map 7 [10; 20; 30] [] = Ok ([] ++ cs) /\ size cs = 7.
Proof.
  destruct (colour_map_resampling 7 [10; 20; 30] [] ltac:(lia)
              ltac:(unfold size, INT_MAX; simpl; lia)) as (cs & H1 & H2 & _).
  exists cs. split; assumption.
Defined.

(** X9.  On the range of [max_iterations] the spread index keeps the order
    of the iteration counts: a point that takes longer to escape never gets
    an earlier entry of the colour map. *)
Theorem spread_index_monotone (m i i' : Z)
    (Hm : 1 <= m <= 1023) (Hi : 0 <= i <= i') (Hi' : i' < m) :
  get_spread_colour_index i m <= get_spread_colour_index i' m.
Proof.
  rewrite !spread_index_value by lia.
  destruct (Z.ltb_spec m 16) as [Hlt | Hge]; [lia |].
  pose proof (spread_factor_positive m ltac:(lia)) as Hf.
  assert (i * spread_factor m <= i' * spread_factor m) by nia. lia.
Qed.

Lemma spread_index_monotone_witness :
  get_spread_colour_index 3 100 <= get_spread_colour_index 40 100.
Proof. apply (spread_index_monotone 100 3 40); lia. Defined.

(** ** How many anchors are read *)

Lemma at_app_l {A : Type} (v w : list A) (i : Z) :
  0 <= i < size v -> at_ (v ++ w) i = at_ v i.
Proof.
  unfold size, at_. intros Hi. rewrite length_app, Nat2Z.inj_add.
  destruct (Z.leb_spec 0 i); [| lia].
  destruct (Z.ltb_spec i (Z.of_nat (length v))); [| lia].
  destruct (Z.ltb_spec i (Z.of_nat (length v) + Z.of_nat (length w))); [| lia].
  simpl. rewrite nth_error_app1 by lia. reflexivity.
Qed.

Lemma segments_from_app (w : list colour) (fuel : nat) (pts : list colour) (n : nat) :
  forall i uc,
    0 <= i -> i + Z.of_nat n < size pts ->
    segments_from n i fuel (pts ++ w) uc = segments_from n i fuel pts uc.
Proof.
  induction n as [| n IH]; intros i uc Hi Hn; [reflexivity |].
  cbn [segments_from].
  rewrite !at_app_l by lia.
  destruct (at_ pts i) as [a |]; [| reflexivity].
  destruct (at_ pts (i + 1)) as [b |]; [| reflexivity].
  cbn [bind]. destruct (interpolate_segment fuel a b uc); [| reflexivity].
  cbn [bind]. apply IH; lia.
Qed.

Lemma at_uint16 (pts : list colour) (i : Z) (a : colour) :
  Forall is_uint16 pts -> at_ pts i = Ok a -> is_uint16 a.
Proof.
  intros Hcol Ha. rewrite Forall_forall in Hcol. eapply Hcol, at_In, Ha.
Qed.

Lemma segments_from_short (fuel : nat) (pts : list colour) (n : nat) :
  Forall is_uint16 pts -> (63 <= fuel)%nat ->
  forall i uc,
    0 <= i -> (1 <= n)%nat -> size pts <= i + Z.of_nat n ->
    segments_from n i fuel pts uc = Err out_of_range.
Proof.
  intros Hcol Hfuel. induction n as [| n IH]; intros i uc Hi Hn Hlen; [lia |].
  cbn [segments_from].
  destruct (Z_lt_dec i (size pts)) as [H1 | H1];
    [| rewrite at_out_of_range by lia; reflexivity].
  destruct (at_in_range pts i ltac:(lia)) as [a Ea]. rewrite Ea, bind_Ok.
  destruct (Z_lt_dec (i + 1) (size pts)) as [H2 | H2];
    [| rewrite at_out_of_range by lia; reflexivity].
  destruct (at_in_range pts (i + 1) ltac:(lia)) as [b Eb]. rewrite Eb, bind_Ok.
  pose proof (channel_distance_range a b).
  rewrite interpolate_segment_path
    by (eapply at_uint16; eassumption) || lia.
  rewrite bind_Ok. apply IH; lia.
Qed.

(** X10.  Exactly the first six anchors are read: with fewer than six the
    call fails with the out-of-range exception of [at], whatever was
    generated before, and anchors after the sixth are ignored. *)
Theorem unique_colours_anchor_count (fuel : nat) (uc pts : list colour)
    (Hcol : Forall is_uint16 pts) (Hfuel : (63 <= fuel)%nat) :
  ((length pts < 6)%nat -> generate_unique_colours fuel uc pts = Err out_of_range)
  /\ (length pts = 6%nat ->
      forall more, generate_unique_colours fuel uc (pts ++ more)
                   = generate_unique_colours fuel uc pts).
Proof.
  unfold generate_unique_colours. split.
  - intros Hlen. apply segments_from_short; try assumption; unfold size; lia.
  - intros Hlen more. apply segments_from_app; unfold size; lia.
Qed.

Lemma unique_colours_anchor_count_witness :
  generate_unique_colours 63 [] [0x0000; 0x2104; 0x4208; 0x630C; 0x8410]
  = Err out_of_range.
Proof.
  assert (Hcol : Forall is_uint16 [0x0000; 0x2104; 0x4208; 0x630C; 0x8410])
    by (unfold is_uint16; repeat constructor; lia).
  destruct (unique_colours_anchor_count 63 [] _ Hcol (le_n 63)) as [H _].
  apply H. repeat constructor.
Defined.

(** ** Repeated colours at the joins *)

Lemma segment_path_split (cs ce : colour) :
  is_uint16 cs -> is_uint16 ce ->
  exists front back,
    segment_path cs ce = front ++ [ce] /\ segment_path cs ce = cs :: back.
Proof.
  intros Hcs Hce.
  assert (N : segment_path cs ce <> []) by discriminate.
  exists (removelast (segment_path cs ce)),
    (map (fun k => colour_after cs ce (Z.of_nat k))
       (seq 1 (Z.to_nat (channel_distance cs ce)))).
  split; [| reflexivity].
  rewrite (app_removelast_last cs N) at 1.
  rewrite (seg_last _ _ _ (segment_path_ok cs ce Hcs Hce)). reflexivity.
Qed.

Lemma concat_join (pre post : list (list colour)) (s t : list colour) (a : colour) :
  (exists front, s = front ++ [a]) -> (exists back, t = a :: back) ->
  exists A B, concat (pre ++ s :: t :: post) = A ++ a :: a :: B.
Proof.
  intros [front ->] [back ->].
  exists (concat pre ++ front), (back ++ concat post).
  rewrite concat_app. cbn [concat]. rewrite <- !app_assoc. reflexivity.
Qed.

Lemma anchor_paths_join (pts : list colour) (i : nat) :
  length pts = 6%nat -> Forall is_uint16 pts -> (1 <= i <= 4)%nat ->
  exists A B,
    concat (anchor_paths pts) = A ++ nth i pts 0 :: nth i pts 0 :: B.
Proof.
  intros Hlen Hcol Hi.
  destruct (six_anchors pts Hlen Hcol)
    as (p0 & p1 & p2 & p3 & p4 & p5 & -> & U0 & U1 & U2 & U3 & U4 & U5).
  cbn [anchor_paths seq map nth].
  destruct (segment_path_split p0 p1 U0 U1) as (f0 & _ & F0 & _).
  destruct (segment_path_split p1 p2 U1 U2) as (f1 & b1 & F1 & B1).
  destruct (segment_path_split p2 p3 U2 U3) as (f2 & b2 & F2 & B2).
  destruct (segment_path_split p3 p4 U3 U4) as (f3 & b3 & F3 & B3).
  destruct (segment_path_split p4 p5 U4 U5) as (_ & b4 & _ & B4).
  destruct i as [| [| [| [| [| i]]]]]; try lia; cbn [nth].
  - apply (concat_join [] _ _ _ p1); eauto.
  - apply (concat_join [_] _ _ _ p2); eauto.
  - apply (concat_join [_; _] _ _ _ p3); eauto.
  - apply (concat_join [_; _; _] _ _ _ p4); eauto.
Qed.

(** X11.  The sequence called unique colours holds repeats: each of the four
    inner anchors closes one segment and opens the next, so it occurs
    twice in a row. *)
Theorem unique_colours_repeat_anchors (pts : list colour) (fuel : nat)
    (Hlen : length pts = 6%nat) (Hcol : Forall is_uint16 pts)
    (Hfuel : (63 <= fuel)%nat) :
  exists u : list colour,
    generate_unique_colours fuel [] pts = Ok u
    /\ ~ NoDup u
    /\ forall i : nat, (1 <= i <= 4)%nat ->
         exists k : nat,
           (S k < length u)%nat
           /\ nth k u 0 = nth i pts 0 /\ nth (S k) u 0 = nth i pts 0.
Proof.
  exists (concat (anchor_paths pts)).
  split; [apply (generate_unique_colours_paths fuel []); assumption |].
  split.
  - destruct (anchor_paths_join pts 1 Hlen Hcol ltac:(lia)) as (A & B & E).
    rewrite E. intros ND. apply NoDup_remove_2 in ND. apply ND.
    apply in_or_app. right. left. reflexivity.
  - intros i Hi.
    destruct (anchor_paths_join pts i Hlen Hcol Hi) as (A & B & E).
    rewrite E. exists (length A).
    split; [rewrite length_app; simpl; lia |].
    split.
    + rewrite app_nth2 by lia. rewrite Nat.sub_diag. reflexivity.
    + rewrite app_nth2 by lia.
      replace (S (length A) - length A)%nat with 1%nat by lia. reflexivity.
Qed.

Lemma unique_colours_repeat_anchors_witness :
  exists u : list colour,
    generate_unique_colours 63 [] test_anchors = Ok u /\ ~ NoDup u.
Proof.
  destruct (unique_colours_repeat_anchors test_anchors 63 eq_refl
              test_anchors_uint16 (le_n 63)) as (u & H1 & H2 & _).
  exists u. split; assumption.
Defined.

(** ** The image file *)

Lemma ppm_pixel_values (c : colour) :
  ppm_pixel c = [RED c * 8; GREEN c * 4; BLUE c * 8].
Proof.
  pose proof (RED_range c); pose proof (GREEN_range c); pose proof (BLUE_range c).
  unfold ppm_pixel, to_uint8, wrap_unsigned.
  rewrite !Z.shiftl_mul_pow2 by lia.
  change (2 ^ 3) with 8; change (2 ^ 2) with 4; change (2 ^ 8) with 256.
  rewrite !Z.mod_small by lia. reflexivity.
Qed.

(** X12.  The three bytes written for a pixel are its channels times 8, 4 and
    8: no byte overflows, full intensity is 248, 252, 248 (never 255), and
    the RGB565 colour can be read back from the bytes exactly. *)
Theorem ppm_pixel_lossless (c : colour) (Hc : is_uint16 c) :
  exists r g b,
    ppm_pixel c = [r; g; b]
    /\ r = RED c * 8 /\ g = GREEN c * 4 /\ b = BLUE c * 8
    /\ 0 <= r <= 248 /\ 0 <= g <= 252 /\ 0 <= b <= 248
    /\ ppm_decode r g b = c.
Proof.
  pose proof (RED_range c); pose proof (GREEN_range c); pose proof (BLUE_range c).
  exists (RED c * 8), (GREEN c * 4), (BLUE c * 8).
  split; [apply ppm_pixel_values |].
  repeat (split; [lia |]).
  unfold ppm_decode. rewrite !Z.shiftr_div_pow2 by lia.
  change (2 ^ 3) with 8; change (2 ^ 2) with 4.
  rewrite !Z.div_mul by lia. apply rgb565_repack, Hc.
Qed.

Lemma ppm_pixel_lossless_witness :
  exists r g b, ppm_pixel 0xFFFF = [r; g; b] /\ ppm_decode r g b = 0xFFFF.
Proof.
  destruct (ppm_pixel_lossless 0xFFFF ltac:(unfold is_uint16; lia))
    as (r & g & b & H1 & _ & _ & _ & _ & _ & _ & H2).
  exists r, g, b. split; assumption.
Defined.

Lemma flat_map_seq_shift {A : Type} (f : nat -> list A) (s n : nat) :
  flat_map f (seq (S s) n) = flat_map (fun j => f (S j)) (seq s n).
Proof.
  rewrite <- seq_shift, flat_map_concat_map, map_map, <- flat_map_concat_map.
  reflexivity.
Qed.

(** Chunks of equal length laid end to end. *)
Lemma flat_map_uniform (f : nat -> list Z) (c : nat) :
  (forall i, length (f i) = c) ->
  forall n s,
    length (flat_map f (seq s n)) = (c * n)%nat
    /\ forall i k, (i < n)%nat -> (k < c)%nat ->
         nth (c * i + k) (flat_map f (seq s n)) 0 = nth k (f (s + i)%nat) 0.
Proof.
  intros Hc. induction n as [| n IH]; intros s.
  - split; [simpl; lia | intros; lia].
  - cbn [seq flat_map]. destruct (IH (S s)) as [L N]. split.
    + rewrite length_app, Hc, L. lia.
    + intros i k Hi Hk. destruct i as [| i].
      * rewrite Nat.mul_0_r, Nat.add_0_l, Nat.add_0_r.
        apply app_nth1. rewrite Hc. exact Hk.
      * rewrite app_nth2 by (rewrite Hc; lia). rewrite Hc.
        replace (c * S i + k - c)%nat with (c * i + k)%nat by lia.
        rewrite N by lia. f_equal. f_equal. lia.
Qed.

Lemma ppm_columns_eq (fb : framebuffer) (y : Z) (n : nat) :
  forall x ofs,
    ppm_columns n y x fb ofs
    = ofs ++ flat_map (fun j => ppm_pixel (fb y (x + Z.of_nat j))) (seq 0 n).
Proof.
  induction n as [| n IH]; intros x ofs.
  - simpl. rewrite app_nil_r. reflexivity.
  - cbn [ppm_columns seq flat_map]. rewrite IH, <- app_assoc, flat_map_seq_shift.
    apply (f_equal (app ofs)). apply (f_equal2 (@app Z)).
    + replace (x + Z.of_nat 0) with x by lia. reflexivity.
    + apply flat_map_ext. intros j.
      replace (x + 1 + Z.of_nat j) with (x + Z.of_nat (S j)) by lia. reflexivity.
Qed.

Lemma ppm_rows_eq (fb : framebuffer) (n : nat) :
  forall y ofs,
    ppm_rows n y fb ofs
    = ofs ++ flat_map
               (fun i => flat_map (fun j => ppm_pixel (fb (y + Z.of_nat i) (Z.of_nat j)))
                           (seq 0 (Z.to_nat XSIZE)))
               (seq 0 n).
Proof.
  induction n as [| n IH]; intros y ofs.
  - simpl. rewrite app_nil_r. reflexivity.
  - cbn [ppm_rows]. rewrite IH, ppm_columns_eq, <- app_assoc.
    cbn [seq flat_map]. rewrite flat_map_seq_shift.
    apply (f_equal (app ofs)). apply (f_equal2 (@app Z)).
    + apply flat_map_ext. intros j.
      replace (y + Z.of_nat 0) with y by lia.
      replace (0 + Z.of_nat j) with (Z.of_nat j) by lia. reflexivity.
    + apply flat_map_ext. intros i. apply flat_map_ext. intros j.
      replace (y + 1 + Z.of_nat i) with (y + Z.of_nat (S i)) by lia. reflexivity.
Qed.

Lemma ppm_header_bytes :
  bytes_of_string ppm_header = [80; 54; 10; 54; 52; 48; 32; 52; 56; 48; 10; 50; 53; 53; 10].
Proof. reflexivity. Qed.

(** X13.  The image file is the 15 bytes ["P6\n640 480\n255\n"] followed by
    three bytes per pixel in row-major order: 921615 bytes in all, the
    bytes of the pixel at row [y] and column [x] starting at offset
    [15 + 3 * (640 * y + x)]. *)
Theorem write_ppm_file_layout (fb : framebuffer) :
  size (write_ppm_file fb) = 921615
  /\ firstn 15 (write_ppm_file fb)
     = [80; 54; 10; 54; 52; 48; 32; 52; 56; 48; 10; 50; 53; 53; 10]
  /\ forall y x k : Z, 0 <= y < YSIZE -> 0 <= x < XSIZE -> 0 <= k < 3 ->
       nth (Z.to_nat (15 + 3 * (640 * y + x) + k)) (write_ppm_file fb) 0
       = nth (Z.to_nat k) (ppm_pixel (fb y x)) 0.
Proof.
  unfold write_ppm_file. rewrite ppm_rows_eq, ppm_header_bytes.
  match goal with
  | |- context [flat_map ?r (seq 0 (Z.to_nat YSIZE))] => set (row := r)
  end.
  assert (Lpix : forall i j,
             length (ppm_pixel (fb (0 + Z.of_nat i) (Z.of_nat j))) = 3%nat)
    by (intros; rewrite ppm_pixel_values; reflexivity).
  assert (Lrow : forall i, length (row i) = (3 * Z.to_nat XSIZE)%nat).
  { intros i. unfold row.
    destruct (flat_map_uniform _ 3 (Lpix i) (Z.to_nat XSIZE) 0) as [L _].
    exact L. }
  destruct (flat_map_uniform row _ Lrow (Z.to_nat YSIZE) 0) as [L N].
  split; [| split].
  - unfold size. rewrite length_app, L. cbn [length]. unfold XSIZE, YSIZE. lia.
  - reflexivity.
  - intros y x k Hy Hx Hk. unfold XSIZE, YSIZE in *.
    rewrite app_nth2 by (cbn [length]; lia). cbn [length].
    replace (Z.to_nat (15 + 3 * (640 * y + x) + k) - 15)%nat
      with (3 * Z.to_nat 640 * Z.to_nat y + (3 * Z.to_nat x + Z.to_nat k))%nat
      by lia.
    rewrite N by lia. cbn [Nat.add]. unfold row.
    destruct (flat_map_uniform _ 3 (Lpix (Z.to_nat y)) (Z.to_nat 640) 0)
      as [_ N'].
    rewrite N' by lia. cbn [Nat.add].
    rewrite !Z2Nat.id by lia. reflexivity.
Qed.

(** ** Frames that are black throughout *)

(** X14.  Every sample point within 41000000 of the origin in x and 31000000
    in y (about 0.076 and 0.058) stays bounded for ever: for any [int]
    bound the loop runs to the bound and the pixel is drawn in colour 0,
    without the colour map being read. *)
Theorem interior_points_black (x y max_iterations : Z) (colour_map : list colour)
    (Hx : - interior_x <= x <= interior_x) (Hy : - interior_y <= y <= interior_y)
    (Hmax : 0 <= max_iterations <= INT_MAX) :
  iterations (escape_time x y max_iterations) = max_iterations
  /\ modulus_sq (escape_time x y max_iterations) <= to_uint64 (Z.shiftl 4 FRAC_BITS)
  /\ pixel_colour x y max_iterations colour_map = Ok 0.
Proof.
  destruct (escape_time_interior x y Hx Hy max_iterations Hmax) as [E (_ & _ & I)].
  split; [exact E |]. split; [rewrite escape_threshold; lia |].
  apply pixel_colour_interior; assumption.
Qed.

Lemma interior_points_black_witness :
  pixel_colour 40000000 (-30000000) 1000 [] = Ok 0.
Proof.
  apply (interior_points_black 40000000 (-30000000) 1000 []);
    unfold interior_x, interior_y, INT_MAX; lia.
Defined.

(** X15.  With an iteration bound of 1 or 2 no pixel can escape, the first
    two passes being unconditional: the whole frame is colour 0.  A record
    whose [max_iterations] is outside [1,1023] is reset to 1 and therefore
    renders an entirely black frame, whatever its center, zoom and
    anchors. *)
Theorem low_bound_frame_black (fuel : nat) (cx cy zoom m : Z)
    (c1 c2 c3 c4 c5 c6 : colour)
    (Hcol : Forall is_uint16 [c1; c2; c3; c4; c5; c6]) (Hfuel : (63 <= fuel)%nat)
    (Hm : m <= 2 \/ 1023 < m) :
  exists fb : framebuffer,
    main_body fuel cx cy zoom m c1 c2 c3 c4 c5 c6 = Ok fb
    /\ forall y x, in_grid y x -> fb y x = 0.
Proof.
  destruct (main_body_frame fuel cx cy zoom m c1 c2 c3 c4 c5 c6 Hcol Hfuel)
    as (fb & u & cm & _ & _ & _ & Efb & P1 & _).
  exists fb. split; [exact Efb |]. intros y x Hg.
  specialize (P1 y x Hg). unfold pixel_colour in P1.
  pose proof (main_max_iterations_range m) as HM.
  assert (H2 : main_max_iterations m <= 2).
  { rewrite main_max_iterations_eq.
    destruct (Z.leb_spec 1 m), (Z.leb_spec m 1023); simpl; lia. }
  match type of P1 with
  | (if iterations ?st <? _ then _ else _) = _ =>
      pose proof (escape_time_count
                    (sample_x (cs_x (center_coords (to_int32 cx) (to_int32 cy) zoom))
                       (cs_step (center_coords (to_int32 cx) (to_int32 cy) zoom)) x)
                    (sample_y (cs_y (center_coords (to_int32 cx) (to_int32 cy) zoom))
                       (cs_step (center_coords (to_int32 cx) (to_int32 cy) zoom)) y)
                    (main_max_iterations m) ltac:(unfold INT_MAX; lia)) as Hc;
      destruct (Z.ltb_spec (iterations st) (main_max_iterations m)) as [Hlt | Hge]
  end.
  - lia.
  - injection P1 as <-. reflexivity.
Qed.

Lemma low_bound_frame_black_witness :
  exists fb : framebuffer,
    main_body 63 0 0 5 2000 0x0000 0x2104 0x4208 0x630C 0x8410 0xFFFF = Ok fb
    /\ fb 0 0 = 0.
Proof.
  destruct (low_bound_frame_black 63 0 0 5 2000
              0x0000 0x2104 0x4208 0x630C 0x8410 0xFFFF
              test_anchors_uint16 (le_n 63) ltac:(lia)) as (fb & E & B).
  exists fb. split; [exact E |]. apply B. unfold in_grid, YSIZE, XSIZE. lia.
Defined.

(** ** Downsampling with stride 1 *)

(** X16.  When the unique colours outnumber the iterations by less than a
    factor of two the stride is 1 and the colour map is simply the first
    [max_iterations] unique colours: the end of the gradient, the last
    anchor included, is cut off. *)
Theorem colour_map_truncates (max_iterations : Z) (unique_colours colour_map : list colour)
    (Hmax : 1 <= max_iterations <= 1023)
    (Hsize : max_iterations < size unique_colours < 2 * max_iterations) :
  generate_colour_map max_iterations unique_colours colour_map
  = Ok (colour_map ++ firstn (Z.to_nat max_iterations) unique_colours).
Proof.
  assert (HU : 1 <= size unique_colours <= INT_MAX) by (unfold INT_MAX; lia).
  rewrite generate_colour_map_reads.
  rewrite read_all_map by (apply colour_map_reads_range; assumption).
  do 2 f_equal.
  apply (nth_ext _ _ 0 0).
  - rewrite length_map, colour_map_reads_length, length_firstn.
    unfold size in Hsize. lia.
  - intros j Hj. rewrite length_map, colour_map_reads_length in Hj.
    rewrite nth_indep with (d' := (fun i => nth (Z.to_nat i) unique_colours 0) 0)
      by (rewrite length_map, colour_map_reads_length; exact Hj).
    rewrite (map_nth (fun i => nth (Z.to_nat i) unique_colours 0)).
    rewrite colour_map_reads_nth by (assumption || lia).
    rewrite nth_firstn.
    destruct (Nat.ltb_spec j (Z.to_nat max_iterations)); [| lia].
    unfold colour_map_index, floor_stride.
    destruct (Z.ltb_spec max_iterations (size unique_colours)); [| lia].
    replace (size unique_colours / max_iterations) with 1
      by (apply (Z.div_unique (size unique_colours) max_iterations 1
                   (size unique_colours - max_iterations)); lia).
    rewrite Z.mul_1_r, Nat2Z.id. reflexivity.
Qed.

Lemma colour_map_truncates_witness :
  generate_colour_map 3 [10; 20; 30; 40; 50] [] = Ok ([] ++ firstn 3 [10; 20; 30; 40; 50]).
Proof.
  apply (colour_map_truncates 3 [10; 20; 30; 40; 50] []); unfold size; simpl; lia.
Defined.

(** ** Shape of the unique colours *)

Lemma segment_path_last (cs ce : colour) :
  is_uint16 cs -> is_uint16 ce -> forall d, last (segment_path cs ce) d = ce.
Proof.
  intros Hcs Hce d.
  destruct (segment_path_split cs ce Hcs Hce) as (front & _ & -> & _).
  apply last_last.
Qed.

Lemma last_app_nonempty {A : Type} (l l' : list A) (d : A) :
  l' <> [] -> last (l ++ l') d = last l' d.
Proof.
  intros N. rewrite (app_removelast_last d N), app_assoc. rewrite !last_last.
  reflexivity.
Qed.

(** X17.  For six anchors the unique colours run from the first anchor to
    the sixth, contain every anchor, and number 5 plus the five largest
    per-channel distances between consecutive anchors. *)
Theorem unique_colours_shape (pts : list colour) (fuel : nat)
    (Hlen : length pts = 6%nat) (Hcol : Forall is_uint16 pts)
    (Hfuel : (63 <= fuel)%nat) :
  exists u : list colour,
    generate_unique_colours fuel [] pts = Ok u
    /\ hd_error u = Some (nth 0 pts 0)
    /\ last u 0 = nth 5 pts 0
    /\ (forall i : nat, (i <= 5)%nat -> In (nth i pts 0) u)
    /\ size u
       = 5 + channel_distance (nth 0 pts 0) (nth 1 pts 0)
           + channel_distance (nth 1 pts 0) (nth 2 pts 0)
           + channel_distance (nth 2 pts 0) (nth 3 pts 0)
           + channel_distance (nth 3 pts 0) (nth 4 pts 0)
           + channel_distance (nth 4 pts 0) (nth 5 pts 0).
Proof.
  exists (concat (anchor_paths pts)).
  split; [apply (generate_unique_colours_paths fuel []); assumption |].
  split; [apply unique_colours_head |].
  destruct (six_anchors pts Hlen Hcol)
    as (p0 & p1 & p2 & p3 & p4 & p5 & -> & U0 & U1 & U2 & U3 & U4 & U5).
  cbn [anchor_paths seq map nth concat]. rewrite app_nil_r.
  split; [| split].
  - rewrite !last_app_nonempty by discriminate.
    apply segment_path_last; assumption.
  - intros i Hi.
    destruct (segment_path_split p0 p1 U0 U1) as (_ & b0 & _ & B0).
    destruct (segment_path_split p1 p2 U1 U2) as (_ & b1 & _ & B1).
    destruct (segment_path_split p2 p3 U2 U3) as (_ & b2 & _ & B2).
    destruct (segment_path_split p3 p4 U3 U4) as (_ & b3 & _ & B3).
    destruct (segment_path_split p4 p5 U4 U5) as (f4 & b4 & F4 & B4).
    destruct i as [| [| [| [| [| [| i]]]]]]; try lia; cbn [nth].
    + rewrite B0. left. reflexivity.
    + rewrite B1. apply in_or_app. right. left. reflexivity.
    + rewrite B2. do 2 (apply in_or_app; right). left. reflexivity.
    + rewrite B3. do 3 (apply in_or_app; right). left. reflexivity.
    + rewrite B4. do 4 (apply in_or_app; right). left. reflexivity.
    + rewrite F4. do 5 (apply in_or_app; right). left. reflexivity.
  - unfold size. rewrite !length_app, !segment_path_length.
    pose proof (channel_distance_range p0 p1).
    pose proof (channel_distance_range p1 p2).
    pose proof (channel_distance_range p2 p3).
    pose proof (channel_distance_range p3 p4).
    pose proof (channel_distance_range p4 p5).
    lia.
Qed.

Lemma unique_colours_shape_witness :
  exists u : list colour,
    generate_unique_colours 63 [] test_anchors = Ok u /\ last u 0 = 0xFFFF.
Proof.
  destruct (unique_colours_shape test_anchors 63 eq_refl test_anchors_uint16 (le_n 63))
    as (u & H1 & _ & H2 & _).
  exists u. split; assumption.
Defined.

(** ** The text dump *)

Lemma hex_field_check :
  all_below 65536 (fun c =>
    let h := pad_left 4 (Ascii.ascii_of_nat 48) (print_hex c) in
    (Nat.eqb (String.length h) 4)
    && match read_hex h with Some v => v =? c | None => false end) = true.
Proof. vm_compute. reflexivity. Qed.

Lemma read_print_int (z : Z) : read_int (print_int z) = Some z.
Proof.
  unfold read_int, print_int.
  rewrite DecimalString.NilZero.isi.
  - simpl. rewrite DecimalZ.of_to. reflexivity.
  - intros E. pose proof (f_equal Z.of_int E) as E0.
    rewrite DecimalZ.of_to in E0. simpl in E0. subst z. discriminate E.
  - intros E. pose proof (f_equal Z.of_int E) as E0.
    rewrite DecimalZ.of_to in E0. simpl in E0. subst z. discriminate E.
Qed.

(** X18.  A line of the text dump is the column, the row, and the colour as
    exactly four lower-case hexadecimal digits after "0x"; each of the
    three fields reads back to the value that was written. *)
Theorem framebuffer_line_fields (x y : Z) (c : colour) (Hc : is_uint16 c) :
  exists h : String.string,
    framebuffer_line x y c
    = String.append (print_int x)
        (String.append " "
           (String.append (print_int y)
              (String.append " 0x" (String.append h newline))))
    /\ String.length h = 4%nat
    /\ read_hex h = Some c
    /\ read_int (print_int x) = Some x
    /\ read_int (print_int y) = Some y.
Proof.
  exists (pad_left 4 (Ascii.ascii_of_nat 48) (print_hex c)).
  split; [reflexivity |].
  pose proof (all_below_spec _ _ hex_field_check c Hc) as H. cbv beta zeta in H.
  apply andb_prop in H. destruct H as [H1 H2].
  split; [apply Nat.eqb_eq, H1 |].
  split; [| split; apply read_print_int].
  destruct (read_hex _) as [v |]; [| discriminate].
  apply Z.eqb_eq in H2. subst v. reflexivity.
Qed.

Lemma framebuffer_line_fields_witness :
  exists h : String.string, String.length h = 4%nat /\ read_hex h = Some 0x00af.
Proof.
  destruct (framebuffer_line_fields 639 479 0x00af ltac:(unfold is_uint16; lia))
    as (h & _ & H1 & H2 & _).
  exists h. split; assumption.
Defined.

Lemma append_assoc (a b c : String.string) :
  String.append (String.append a b) c = String.append a (String.append b c).
Proof. induction a as [| ch a IH]; simpl; [| rewrite IH]; reflexivity. Qed.

Lemma append_empty_r (a : String.string) : String.append a String.EmptyString = a.
Proof. induction a as [| ch a IH]; simpl; [| rewrite IH]; reflexivity. Qed.

Lemma join_strings_app (l l' : list String.string) :
  join_strings (l ++ l') = String.append (join_strings l) (join_strings l').
Proof.
  induction l as [| a l IH]; simpl; [reflexivity |].
  rewrite IH, append_assoc. reflexivity.
Qed.

Lemma text_columns_eq (fb : framebuffer) (y : Z) (n : nat) :
  forall x ofs,
    text_columns n y x fb ofs
    = String.append ofs
        (join_strings
           (map (fun j => framebuffer_line (x + Z.of_nat j) y (fb y (x + Z.of_nat j)))
              (seq 0 n))).
Proof.
  induction n as [| n IH]; intros x ofs.
  - simpl. rewrite append_empty_r. reflexivity.
  - cbn [text_columns seq map join_strings fold_right].
    rewrite IH, append_assoc, <- seq_shift, map_map.
    replace (x + Z.of_nat 0) with x by lia.
    apply (f_equal (String.append ofs)).
    apply (f_equal (String.append (framebuffer_line x y (fb y x)))).
    apply (f_equal join_strings). apply map_ext. intros j.
    replace (x + 1 + Z.of_nat j) with (x + Z.of_nat (S j)) by lia. reflexivity.
Qed.

Lemma text_rows_eq (fb : framebuffer) (n : nat) :
  forall y ofs,
    text_rows n y fb ofs
    = String.append ofs
        (join_strings
           (flat_map
              (fun i =>
                 map (fun j => framebuffer_line (Z.of_nat j) (y + Z.of_nat i)
                                 (fb (y + Z.of_nat i) (Z.of_nat j)))
                   (seq 0 (Z.to_nat XSIZE)))
              (seq 0 n))).
Proof.
  induction n as [| n IH]; intros y ofs.
  - simpl. rewrite append_empty_r. reflexivity.
  - cbn [text_rows]. rewrite IH, text_columns_eq, append_assoc.
    cbn [seq flat_map]. rewrite join_strings_app, flat_map_seq_shift.
    apply (f_equal (String.append ofs)).
    apply (f_equal2 String.append).
    + apply (f_equal join_strings). apply map_ext. intros j.
      replace (y + Z.of_nat 0) with y by lia.
      replace (0 + Z.of_nat j) with (Z.of_nat j) by lia. reflexivity.
    + apply (f_equal join_strings). apply flat_map_ext. intros i.
      apply map_ext. intros j.
      replace (y + 1 + Z.of_nat i) with (y + Z.of_nat (S i)) by lia. reflexivity.
Qed.

(** X19.  The text dump is empty when the file could not be opened;
    otherwise it is the 307200 lines of the pixels in row-major order, one
    line per pixel, column before row within the line. *)
Theorem write_framebuffer_file_lines (fb : framebuffer) :
  write_framebuffer_file false fb = String.EmptyString
  /\ exists lines : list String.string,
       write_framebuffer_file true fb = join_strings lines
       /\ size lines = XSIZE * YSIZE
       /\ forall y x, in_grid y x ->
            nth (Z.to_nat (XSIZE * y + x)) lines String.EmptyString
            = framebuffer_line x y (fb y x).
Proof.
  split; [reflexivity |].
  unfold write_framebuffer_file. cbn [negb]. rewrite text_rows_eq. cbn [String.append].
  match goal with
  | |- context [flat_map ?r (seq 0 (Z.to_nat YSIZE))] => set (row := r)
  end.
  exists (flat_map row (seq 0 (Z.to_nat YSIZE))).
  split; [reflexivity |].
  assert (Lrow : forall i, length (row i) = Z.to_nat XSIZE)
    by (intros i; unfold row; rewrite length_map, length_seq; reflexivity).
  assert (G : forall n s,
             length (flat_map row (seq s n)) = (Z.to_nat XSIZE * n)%nat
             /\ forall i k, (i < n)%nat -> (k < Z.to_nat XSIZE)%nat ->
                  nth (Z.to_nat XSIZE * i + k) (flat_map row (seq s n))
                    String.EmptyString
                  = nth k (row (s + i)%nat) String.EmptyString).
  { induction n as [| n IH]; intros s.
    - split; [simpl; lia | intros; lia].
    - cbn [seq flat_map]. destruct (IH (S s)) as [L N]. split.
      + rewrite length_app, Lrow, L. lia.
      + intros i k Hi Hk. destruct i as [| i].
        * rewrite Nat.mul_0_r, Nat.add_0_l, Nat.add_0_r.
          apply app_nth1. rewrite Lrow. exact Hk.
        * rewrite app_nth2 by (rewrite Lrow; lia). rewrite Lrow.
          replace (Z.to_nat XSIZE * S i + k - Z.to_nat XSIZE)%nat
            with (Z.to_nat XSIZE * i + k)%nat by lia.
          rewrite N by lia. f_equal. f_equal. lia. }
  destruct (G (Z.to_nat YSIZE) 0%nat) as [L N]. split.
  - unfold size. rewrite L. unfold XSIZE, YSIZE. lia.
  - intros y x [Hy Hx]. unfold XSIZE, YSIZE in *.
    replace (Z.to_nat (640 * y + x))
      with (Z.to_nat 640 * Z.to_nat y + Z.to_nat x)%nat by lia.
    rewrite N by lia. cbn [Nat.add]. unfold row.
    rewrite nth_indep
      with (d' := (fun j => framebuffer_line (Z.of_nat j) (0 + Z.of_nat (Z.to_nat y))
                              (fb (0 + Z.of_nat (Z.to_nat y)) (Z.of_nat j))) 0%nat)
      by (rewrite length_map, length_seq; lia).
    rewrite (map_nth (fun j => framebuffer_line (Z.of_nat j) (0 + Z.of_nat (Z.to_nat y))
                                 (fb (0 + Z.of_nat (Z.to_nat y)) (Z.of_nat j)))).
    rewrite seq_nth by lia. cbn [Nat.add].
    rewrite !Z2Nat.id by lia. reflexivity.
Qed.
